(** * instancecontrol: supervision of externally launched processes

    A shallow embedding of the two versions of package [instancecontrol]
    found in the repository, and the properties of the supervision state
    machine proved about them.

    - [Configurable] is the version with functional options, an injected
      [DB] interface and a named [watchProcess] method.
    - [Basic] is the version that talks to [mine_db] directly and waits for
      the child in an anonymous goroutine.

    Every call that leaves the package (the store, the clock, the file
    system, process control) is an [event]; a Go function is a [prog], a
    finite tree of events.  [run] interprets a tree against an arbitrary
    handler and records every call with its answer, so a statement proved
    for all handlers holds for every behaviour of the environment. *)

From Stdlib Require Import ZArith String List Bool Lia.
From stdpp Require Import gmap strings.
Import ListNotations.
Local Open Scope Z_scope.
Local Open Scope string_scope.

(** ** Data model *)

(** A Go [error] is represented by its message, [err.Error()]. *)
Definition error := string.

(** [time.Time] and [time.Duration] in nanoseconds; the zero [Time] is [0]. *)
Definition Time := Z.
Definition Duration := Z.
Definition Millisecond : Duration := 1000000.
Definition Second : Duration := Z.mul 1000 Millisecond.

Definition Add (t : Time) (d : Duration) : Time := Z.add t d.
Definition Before (t u : Time) : bool := Z.ltb t u.

(** [syscall.Errno] and the two signals the package sends. *)
Definition Errno := Z.
Definition EPERM : Errno := 1.
Definition ESRCH : Errno := 3.

Inductive Signal := Sig0 | SIGTERM | SIGKILL.

(** [errors.Is(err, syscall.EPERM)] on the [Errno] that [syscall.Kill]
    returns: an [Errno] is comparable, and its [Is] method only answers for
    the [oserror] sentinels, so the test is equality. *)
Definition errors_Is (err target : Errno) : bool := Z.eqb err target.

(** [type State string] *)
Definition State := string.
Definition StateUnknown : State := "unknown".
Definition StateStarting : State := "starting".
Definition StateRunning : State := "running".
Definition StateStopping : State := "stopping".
Definition StateStopped : State := "stopped".
Definition StateFailed : State := "failed".

Record InstanceRecord := mkRecord {
  rState : State;
  PID : Z;
  StartedAt : Time;
  StoppedAt : Time;
  UpdatedAt : Time;
  LastError : string
}.

(** [var r InstanceRecord] *)
Definition zeroRecord : InstanceRecord := mkRecord "" 0 0 0 0 "".

Definition setState (s : State) (r : InstanceRecord) : InstanceRecord :=
  mkRecord s (PID r) (StartedAt r) (StoppedAt r) (UpdatedAt r) (LastError r).
Definition setPID (p : Z) (r : InstanceRecord) : InstanceRecord :=
  mkRecord (rState r) p (StartedAt r) (StoppedAt r) (UpdatedAt r) (LastError r).
Definition setStartedAt (t : Time) (r : InstanceRecord) : InstanceRecord :=
  mkRecord (rState r) (PID r) t (StoppedAt r) (UpdatedAt r) (LastError r).
Definition setStoppedAt (t : Time) (r : InstanceRecord) : InstanceRecord :=
  mkRecord (rState r) (PID r) (StartedAt r) t (UpdatedAt r) (LastError r).
Definition setUpdatedAt (t : Time) (r : InstanceRecord) : InstanceRecord :=
  mkRecord (rState r) (PID r) (StartedAt r) (StoppedAt r) t (LastError r).
Definition setLastError (e : string) (r : InstanceRecord) : InstanceRecord :=
  mkRecord (rState r) (PID r) (StartedAt r) (StoppedAt r) (UpdatedAt r) e.

(** [*os.File], [*os.Process] and the [*exec.Cmd] built by [exec.Command]:
    [cmdArgs] is the whole argument vector, whose head is the program. *)
Definition File := Z.
Definition Process := Z.

Record Cmd := mkCmd {
  cmdArgs : list string;
  cmdDir : string;
  cmdStdout : option File;
  cmdStderr : option File
}.

(** [filepath.Join] of a directory and one or two further elements. *)
Definition Join (dir elem : string) : string := dir +:+ "/" +:+ elem.

(** ** The JSON codec

    [loadRecord] pushes whatever the store returned through
    [json.Marshal] and [json.Unmarshal].  The codec is a parameter:
    [value] is what an [interface{}] of the store can hold, [box] the
    conversion of a record to it.  [Unmarshal] receives the record it
    decodes into and returns it as it left it, also when it fails. *)
Class Json := {
  value : Type;
  bytes : Type;
  box : InstanceRecord -> value;
  Marshal : value -> bytes + error;
  Unmarshal : bytes -> InstanceRecord -> InstanceRecord * option error
}.

(** ** Events and programs *)

Section Programs.
Context `{Json}.

Inductive event : Type -> Type :=
| Abs (path : string) : event (string + error)
| Now : event Time
| Sleep (d : Duration) : event unit
| DbGet (key : string) : event (value + error)
| DbSet (key : string) (r : InstanceRecord) : event (option error)
| Kill (pid : Z) (sig : Signal) : event (option Errno)
| MkdirAll (path : string) : event (option error)
| OpenFile (path : string) : event (option File)
| CloseFile (f : File) : event unit
| CmdStart (cmd : Cmd) : event (Z + error)
| CmdWait (pid : Z) : event (option error)
| FindProcess (pid : Z) : event (Process + error)
| ProcSignal (p : Process) (sig : Signal) : event (option error)
| Go (absPath : string) (pid : Z) (stdoutF stderrF : option File) : event unit
| Lock : event unit
| Unlock : event unit.

Inductive prog (A : Type) : Type :=
| Ret : A -> prog A
| Vis : forall X : Type, event X -> (X -> prog A) -> prog A.

Arguments Ret {A} a.
Arguments Vis {A X} e k.

Fixpoint bind {A B} (m : prog A) (f : A -> prog B) : prog B :=
  match m with
  | Ret a => f a
  | Vis e k => Vis e (fun x => bind (k x) f)
  end.

Definition call_ {X} (e : event X) : prog X := Vis e Ret.

(** One entry of a trace: an event and the answer it got. *)
Inductive call : Type :=
| Call : forall X : Type, event X -> X -> call.
Arguments Call {X} e x.

Record outcome (W A : Type) := mkOutcome {
  result : A;
  final : W;
  trace : list call
}.
Arguments mkOutcome {W A}.
Arguments result {W A}.
Arguments final {W A}.
Arguments trace {W A}.

Definition handler (W : Type) := forall X, event X -> W -> X * W.

Fixpoint run {W A} (h : handler W) (p : prog A) (w : W) : outcome W A :=
  match p with
  | Ret a => mkOutcome a w []
  | Vis e k =>
      let r := h _ e w in
      let o := run h (k (fst r)) (snd r) in
      mkOutcome (result o) (final o) (Call e (fst r) :: trace o)
  end.

End Programs.

Arguments Ret {_ A} a.
Arguments Vis {_ A X} e k.
Arguments Call {_ X} e x.
Arguments mkOutcome {_ W A} result final trace.
Arguments result {_ W A} o.
Arguments final {_ W A} o.
Arguments trace {_ W A} o.

Declare Scope prog_scope.
Delimit Scope prog_scope with prog.
Notation "x <- m ;; k" := (bind m (fun x => k))
  (at level 100, m at next level, right associativity) : prog_scope.
Notation "'let*' p := m 'in' k" := (bind m (fun x => match x with p => k end))
  (at level 10, p pattern, m at level 100, k at level 200) : prog_scope.
Notation "'do' m ;; k" := (bind m (fun _ => k))
  (at level 100, m at next level, right associativity) : prog_scope.
Local Open Scope prog_scope.

(** [if f != nil { _ = f.Close() }] *)
Definition closeIfOpen `{Json} (f : option File) : prog unit :=
  match f with
  | Some fd => call_ (CloseFile fd)
  | None => Ret tt
  end.

(** The store key of a normalized path. *)
Definition dbKey (path : string) : string := "instancecontrol:" +:+ path.

(** The poll interval of [Stop], [200 * time.Millisecond]. *)
Definition pollInterval : Duration := Z.mul 200 Millisecond.

(** ** The version with options and an injected store *)

Module Configurable.
Section Code.
Context `{Json}.

(** The fields of [Controller] that are data; [db] is the target of the
    [DbGet] and [DbSet] events and [watchLock] that of [Lock] and
    [Unlock]. *)
Record Controller := mkController {
  gracePeriod : Duration;
  defaultCmd : list string;
  useAbsPaths : bool
}.

(** [NewController()] without options. *)
Definition NewController : Controller := mkController (Z.mul 10 Second) [] true.

Definition formatDBKey (c : Controller) (path : string) : prog (string * option error) :=
  if useAbsPaths c then
    a <- call_ (Abs path) ;;
    match a with
    | inr err => Ret ("", Some err)
    | inl abs => Ret (dbKey abs, None)
    end
  else Ret (dbKey path, None).

Definition saveRecord (c : Controller) (path : string) (r : InstanceRecord)
  : prog (option error) :=
  let* (key, err) := formatDBKey c path in
  match err with
  | Some e => Ret (Some e)
  | None =>
      now <- call_ Now ;;
      call_ (DbSet key (setUpdatedAt now r))
  end.

Definition loadRecord (c : Controller) (path : string)
  : prog (InstanceRecord * option error) :=
  let r := zeroRecord in
  let* (key, err) := formatDBKey c path in
  match err with
  | Some e => Ret (r, Some e)
  | None =>
      g <- call_ (DbGet key) ;;
      match g with
      | inr _ =>
          now <- call_ Now ;;
          Ret (setUpdatedAt now (setState StateUnknown r), None)
      | inl v =>
          match Marshal v with
          | inr e => Ret (r, Some e)
          | inl b =>
              let '(r', uerr) := Unmarshal b r in
              match uerr with
              | Some e => Ret (r', Some e)
              | None => Ret (r', None)
              end
          end
      end
  end.

Definition isPidAlive (pid : Z) : prog bool :=
  if Z.leb pid 0 then Ret false
  else
    err <- call_ (Kill pid Sig0) ;;
    match err with
    | None => Ret true
    | Some e => if errors_Is e EPERM then Ret true else Ret false
    end.

(** [rec.PID != 0 && isPidAlive(rec.PID)]: the probe runs only for a
    nonzero pid. *)
Definition pidSetAndAlive (pid : Z) : prog bool :=
  if Z.eqb pid 0 then Ret false else isPidAlive pid.

Definition watchProcess (c : Controller) (absPath : string) (pid : Z)
    (stdoutF stderrF : option File) : prog unit :=
  do call_ Lock ;;
  err <- call_ (CmdWait pid) ;;
  now <- call_ Now ;;
  let rec := setUpdatedAt now zeroRecord in
  rec <- match err with
         | Some e => Ret (setLastError e (setState StateFailed rec))
         | None =>
             stopped <- call_ Now ;;
             Ret (setStoppedAt stopped (setState StateStopped rec))
         end ;;
  let rec := setPID 0 rec in
  do saveRecord c absPath rec ;;
  do closeIfOpen stdoutF ;;
  do closeIfOpen stderrF ;;
  call_ Unlock.

Definition Start (c : Controller) (targetPath : string) (launchCmd : list string)
  : prog (option error) :=
  a <- call_ (Abs targetPath) ;;
  match a with
  | inr err => Ret (Some err)
  | inl absPath =>
  let* (rec, err) := loadRecord c absPath in
  match err with
  | Some e => Ret (Some e)
  | None =>
  alive <- pidSetAndAlive (PID rec) ;;
  if alive then Ret None
  else if Nat.eqb (length launchCmd) 0 && Nat.eqb (length (defaultCmd c)) 0
  then Ret (Some "launch command required")
  else
  let launchCmd := if Nat.eqb (length launchCmd) 0 then defaultCmd c else launchCmd in
  let cmd := mkCmd launchCmd absPath None None in
  m <- call_ (MkdirAll (Join absPath "logs")) ;;
  match m with
  | Some e => Ret (Some e)
  | None =>
  stdoutF <- call_ (OpenFile (Join (Join absPath "logs") "stdout.log")) ;;
  stderrF <- call_ (OpenFile (Join (Join absPath "logs") "stderr.log")) ;;
  let cmd := mkCmd (cmdArgs cmd) (cmdDir cmd) stdoutF stderrF in
  s <- saveRecord c absPath (setState StateStarting zeroRecord) ;;
  match s with
  | Some e =>
      do closeIfOpen stdoutF ;;
      do closeIfOpen stderrF ;;
      Ret (Some e)
  | None =>
  st <- call_ (CmdStart cmd) ;;
  match st with
  | inr e =>
      do saveRecord c absPath (setLastError e (setState StateFailed zeroRecord)) ;;
      do closeIfOpen stdoutF ;;
      do closeIfOpen stderrF ;;
      Ret (Some e)
  | inl pid =>
      started <- call_ Now ;;
      do saveRecord c absPath
           (setStartedAt started (setPID pid (setState StateRunning zeroRecord))) ;;
      do call_ (Go absPath pid stdoutF stderrF) ;;
      Ret None
  end end end end end.

(** The polling loop of [Stop].  [fuel] bounds the number of iterations of
    the model; [None] means the bound was reached before the loop ended. *)
Fixpoint stopLoop (fuel : nat) (c : Controller) (absPath : string) (pid : Z)
    (proc : Process) (deadline : Time) : prog (option (option error)) :=
  match fuel with
  | O => Ret None
  | S fuel' =>
      now <- call_ Now ;;
      if Before now deadline then
        alive <- isPidAlive pid ;;
        if negb alive then
          stopped <- call_ Now ;;
          do saveRecord c absPath (setStoppedAt stopped (setState StateStopped zeroRecord)) ;;
          Ret (Some None)
        else
          do call_ (Sleep pollInterval) ;;
          stopLoop fuel' c absPath pid proc deadline
      else
        do call_ (ProcSignal proc SIGKILL) ;;
        stopped <- call_ Now ;;
        do saveRecord c absPath (setStoppedAt stopped (setState StateStopped zeroRecord)) ;;
        Ret (Some None)
  end.

Definition Stop (fuel : nat) (c : Controller) (targetPath : string)
  : prog (option (option error)) :=
  a <- call_ (Abs targetPath) ;;
  match a with
  | inr err => Ret (Some (Some err))
  | inl absPath =>
  let* (rec, err) := loadRecord c absPath in
  match err with
  | Some e => Ret (Some (Some e))
  | None =>
  alive <- pidSetAndAlive (PID rec) ;;
  if negb alive then
    stopped <- call_ Now ;;
    do saveRecord c absPath (setStoppedAt stopped (setState StateStopped zeroRecord)) ;;
    Ret (Some None)
  else
  let pid := PID rec in
  f <- call_ (FindProcess pid) ;;
  match f with
  | inr e =>
      do saveRecord c absPath (setLastError e (setState StateFailed zeroRecord)) ;;
      Ret (Some (Some e))
  | inl proc =>
      do call_ (ProcSignal proc SIGTERM) ;;
      now <- call_ Now ;;
      let deadline := Add now (gracePeriod c) in
      stopLoop fuel c absPath pid proc deadline
  end end end.

Definition GetState (c : Controller) (targetPath : string)
  : prog (InstanceRecord * option error) :=
  a <- call_ (Abs targetPath) ;;
  let r := zeroRecord in
  match a with
  | inr err => Ret (r, Some err)
  | inl absPath =>
  let* (rec, err) := loadRecord c absPath in
  match err with
  | Some e => Ret (rec, Some e)
  | None =>
      dead <- (if Z.eqb (PID rec) 0 then Ret false
               else alive <- isPidAlive (PID rec) ;; Ret (negb alive)) ;;
      if dead then
        let rec := setState StateStopped rec in
        let rec := setPID 0 rec in
        now <- call_ Now ;;
        let rec := setUpdatedAt now rec in
        do saveRecord c absPath rec ;;
        Ret (rec, None)
      else Ret (rec, None)
  end end.

End Code.
End Configurable.

(** ** The version that uses [mine_db] directly *)

Module Basic.
Section Code.
Context `{Json}.

Record Controller := mkController {
  gracePeriod : Duration
}.

Definition NewController : Controller := mkController (Z.mul 10 Second).

Definition dbKeyFor (path : string) : prog (string * option error) :=
  a <- call_ (Abs path) ;;
  match a with
  | inr err => Ret ("", Some err)
  | inl abs => Ret (dbKey abs, None)
  end.

Definition saveRecord (c : Controller) (path : string) (r : InstanceRecord)
  : prog (option error) :=
  let* (key, err) := dbKeyFor path in
  match err with
  | Some e => Ret (Some e)
  | None =>
      now <- call_ Now ;;
      call_ (DbSet key (setUpdatedAt now r))
  end.

Definition loadRecord (c : Controller) (path : string)
  : prog (InstanceRecord * option error) :=
  let r := zeroRecord in
  let* (key, err) := dbKeyFor path in
  match err with
  | Some e => Ret (r, Some e)
  | None =>
      g <- call_ (DbGet key) ;;
      match g with
      | inr _ =>
          now <- call_ Now ;;
          Ret (setUpdatedAt now (setState StateUnknown r), None)
      | inl v =>
          match Marshal v with
          | inr e => Ret (r, Some e)
          | inl b =>
              let '(r', uerr) := Unmarshal b r in
              match uerr with
              | Some e => Ret (r', Some e)
              | None => Ret (r', None)
              end
          end
      end
  end.

Definition isPidAlive (pid : Z) : prog bool :=
  if Z.leb pid 0 then Ret false
  else
    err <- call_ (Kill pid Sig0) ;;
    match err with
    | None => Ret true
    | Some _ => Ret false
    end.

Definition pidSetAndAlive (pid : Z) : prog bool :=
  if Z.eqb pid 0 then Ret false else isPidAlive pid.

(** The goroutine that [Start] launches. *)
Definition watch (c : Controller) (absPath : string) (pid : Z)
    (stdoutF stderrF : option File) : prog unit :=
  err <- call_ (CmdWait pid) ;;
  now <- call_ Now ;;
  let rec := setUpdatedAt now zeroRecord in
  rec <- match err with
         | Some e => Ret (setLastError e (setState StateFailed rec))
         | None =>
             stopped <- call_ Now ;;
             Ret (setStoppedAt stopped (setState StateStopped rec))
         end ;;
  let rec := setPID 0 rec in
  do saveRecord c absPath rec ;;
  do closeIfOpen stdoutF ;;
  closeIfOpen stderrF.

Definition Start (c : Controller) (targetPath : string) (launchCmd : list string)
  : prog (option error) :=
  a <- call_ (Abs targetPath) ;;
  match a with
  | inr err => Ret (Some err)
  | inl absPath =>
  let* (rec, _) := loadRecord c absPath in
  alive <- pidSetAndAlive (PID rec) ;;
  if alive then Ret None
  else if Nat.eqb (length launchCmd) 0
  then Ret (Some "launch command required")
  else
  let cmd := mkCmd launchCmd absPath None None in
  do call_ (MkdirAll (Join absPath "logs")) ;;
  stdoutF <- call_ (OpenFile (Join (Join absPath "logs") "stdout.log")) ;;
  stderrF <- call_ (OpenFile (Join (Join absPath "logs") "stderr.log")) ;;
  let cmd := mkCmd (cmdArgs cmd) (cmdDir cmd) stdoutF stderrF in
  do saveRecord c absPath (setState StateStarting zeroRecord) ;;
  st <- call_ (CmdStart cmd) ;;
  match st with
  | inr e =>
      do saveRecord c absPath (setLastError e (setState StateFailed zeroRecord)) ;;
      Ret (Some e)
  | inl pid =>
      started <- call_ Now ;;
      do saveRecord c absPath
           (setStartedAt started (setPID pid (setState StateRunning zeroRecord))) ;;
      do call_ (Go absPath pid stdoutF stderrF) ;;
      Ret None
  end end.

Fixpoint stopLoop (fuel : nat) (c : Controller) (absPath : string) (pid : Z)
    (proc : Process) (deadline : Time) : prog (option (option error)) :=
  match fuel with
  | O => Ret None
  | S fuel' =>
      now <- call_ Now ;;
      if Before now deadline then
        alive <- isPidAlive pid ;;
        if negb alive then
          stopped <- call_ Now ;;
          do saveRecord c absPath (setStoppedAt stopped (setState StateStopped zeroRecord)) ;;
          Ret (Some None)
        else
          do call_ (Sleep pollInterval) ;;
          stopLoop fuel' c absPath pid proc deadline
      else
        do call_ (ProcSignal proc SIGKILL) ;;
        stopped <- call_ Now ;;
        do saveRecord c absPath (setStoppedAt stopped (setState StateStopped zeroRecord)) ;;
        Ret (Some None)
  end.

Definition Stop (fuel : nat) (c : Controller) (targetPath : string)
  : prog (option (option error)) :=
  a <- call_ (Abs targetPath) ;;
  match a with
  | inr err => Ret (Some (Some err))
  | inl absPath =>
  let* (rec, _) := loadRecord c absPath in
  alive <- pidSetAndAlive (PID rec) ;;
  if negb alive then
    do saveRecord c absPath (setState StateStopped zeroRecord) ;;
    Ret (Some None)
  else
  let pid := PID rec in
  f <- call_ (FindProcess pid) ;;
  match f with
  | inr e =>
      do saveRecord c absPath (setLastError e (setState StateFailed zeroRecord)) ;;
      Ret (Some (Some e))
  | inl proc =>
      do call_ (ProcSignal proc SIGTERM) ;;
      now <- call_ Now ;;
      let deadline := Add now (gracePeriod c) in
      stopLoop fuel c absPath pid proc deadline
  end end.

Definition GetState (c : Controller) (targetPath : string)
  : prog (InstanceRecord * option error) :=
  a <- call_ (Abs targetPath) ;;
  let r := zeroRecord in
  match a with
  | inr err => Ret (r, Some err)
  | inl absPath =>
  let* (rec, err) := loadRecord c absPath in
  match err with
  | Some e => Ret (rec, Some e)
  | None =>
      dead <- (if Z.eqb (PID rec) 0 then Ret false
               else alive <- isPidAlive (PID rec) ;; Ret (negb alive)) ;;
      if dead then
        let rec := setState StateStopped rec in
        let rec := setPID 0 rec in
        now <- call_ Now ;;
        let rec := setUpdatedAt now rec in
        do saveRecord c absPath rec ;;
        Ret (rec, None)
      else Ret (rec, None)
  end end.

End Code.
End Basic.

(** ** Both versions behind one selector *)

Inductive Impl :=
| withOptions (c : Configurable.Controller)
| plain (c : Basic.Controller).

Section Dispatch.
Context `{Json}.

Definition saveRecordOf (i : Impl) : string -> InstanceRecord -> prog (option error) :=
  match i with
  | withOptions c => Configurable.saveRecord c
  | plain c => Basic.saveRecord c
  end.

Definition loadRecordOf (i : Impl) : string -> prog (InstanceRecord * option error) :=
  match i with
  | withOptions c => Configurable.loadRecord c
  | plain c => Basic.loadRecord c
  end.

Definition isPidAliveOf (i : Impl) : Z -> prog bool :=
  match i with
  | withOptions _ => Configurable.isPidAlive
  | plain _ => Basic.isPidAlive
  end.

Definition StartOf (i : Impl) : string -> list string -> prog (option error) :=
  match i with
  | withOptions c => Configurable.Start c
  | plain c => Basic.Start c
  end.

Definition StopOf (i : Impl) (fuel : nat) : string -> prog (option (option error)) :=
  match i with
  | withOptions c => Configurable.Stop fuel c
  | plain c => Basic.Stop fuel c
  end.

Definition stopLoopOf (i : Impl) (fuel : nat)
  : string -> Z -> Process -> Time -> prog (option (option error)) :=
  match i with
  | withOptions c => Configurable.stopLoop fuel c
  | plain c => Basic.stopLoop fuel c
  end.

Definition GetStateOf (i : Impl) : string -> prog (InstanceRecord * option error) :=
  match i with
  | withOptions c => Configurable.GetState c
  | plain c => Basic.GetState c
  end.

Definition watchOf (i : Impl) : string -> Z -> option File -> option File -> prog unit :=
  match i with
  | withOptions c => Configurable.watchProcess c
  | plain c => Basic.watch c
  end.

Definition gracePeriodOf (i : Impl) : Duration :=
  match i with
  | withOptions c => Configurable.gracePeriod c
  | plain c => Basic.gracePeriod c
  end.

(** ** What a trace shows *)

(** The [Set] calls of a trace: key, record handed over, answer. *)
Definition write_of (c : call) : option (string * InstanceRecord * option error) :=
  match c with
  | Call e x =>
      match e in event X return X -> option (string * InstanceRecord * option error) with
      | DbSet k r => fun res => Some (k, r, res)
      | _ => fun _ => None
      end x
  end.

Definition writes (tr : list call) : list (string * InstanceRecord * option error) :=
  omap write_of tr.

(** The commands a trace tried to launch, with the answer of [cmd.Start]. *)
Definition spawn_of (c : call) : option (Cmd * (Z + error)) :=
  match c with
  | Call e x =>
      match e in event X return X -> option (Cmd * (Z + error)) with
      | CmdStart cmd => fun res => Some (cmd, res)
      | _ => fun _ => None
      end x
  end.

Definition spawns (tr : list call) : list (Cmd * (Z + error)) := omap spawn_of tr.

(** The [os.FindProcess] calls of a trace that failed, with their error. *)
Definition lookup_failure_of (c : call) : option error :=
  match c with
  | Call e x =>
      match e in event X return X -> option error with
      | FindProcess _ => fun res => match res with inr err => Some err | inl _ => None end
      | _ => fun _ => None
      end x
  end.

Definition lookup_failures (tr : list call) : list error := omap lookup_failure_of tr.

(** The forced kills of a trace. *)
Definition kill_of (c : call) : option Process :=
  match c with
  | Call e x =>
      match e in event X return X -> option Process with
      | ProcSignal p SIGKILL => fun _ => Some p
      | _ => fun _ => None
      end x
  end.

Definition kills (tr : list call) : list Process := omap kill_of tr.

(** [always P p]: whatever the environment answers, every call that [p]
    makes satisfies [P]. *)
Fixpoint always {A} (P : call -> Prop) (p : prog A) : Prop :=
  match p with
  | Ret _ => True
  | Vis e k => forall x, P (Call e x) /\ always P (k x)
  end.

(** [all_runs p Q]: whatever the environment answers, the trace and the
    result of [p] are related by [Q]. *)
Fixpoint all_runs {A} (p : prog A) (Q : list call -> A -> Prop) : Prop :=
  match p with
  | Ret a => Q [] a
  | Vis e k => forall x, all_runs (k x) (fun tr a => Q (Call e x :: tr) a)
  end.

(** ** Assumptions on the environment *)

(** [filepath.Abs] returns a clean absolute path, and on such a path it
    returns the path itself, whatever the working directory. *)
Definition abs_stable {W} (h : handler W) : Prop :=
  forall p q w, fst (h _ (Abs p) w) = inl q ->
  forall w', fst (h _ (Abs q) w') = inl q.

(** A clock that does not run backwards: [clk] is the latest reading the
    world has given out or slept to. *)
Record ClockLaws {W} (h : handler W) (clk : W -> Z) : Prop := {
  clk_mono : forall X (e : event X) w, (clk w <= clk (snd (h X e w)))%Z;
  clk_now : forall w,
    (clk w <= fst (h _ Now w))%Z /\ (fst (h _ Now w) <= clk (snd (h _ Now w)))%Z;
  clk_sleep : forall d w, (clk w + d <= clk (snd (h _ (Sleep d) w)))%Z
}.

Definition is_write {X} (e : event X) : bool :=
  match e with
  | DbSet _ _ => true
  | _ => false
  end.

(** The store contract: a [Set] that reports success is what the next
    [Get] of the key returns, and nothing but a [Set] changes the store. *)
Record StoreLaws {W} (h : handler W) (content : W -> string -> option value) : Prop := {
  store_get : forall k w v, content w k = Some v -> fst (h _ (DbGet k) w) = inl v;
  store_set : forall k r w,
    fst (h _ (DbSet k r) w) = None -> content (snd (h _ (DbSet k r) w)) k = Some (box r);
  store_frame : forall X (e : event X) w,
    is_write e = false -> content (snd (h X e w)) = content w
}.

(** ** Properties of records *)

(** A nonzero pid only on a running record. *)
Definition pid_invariant (r : InstanceRecord) : Prop :=
  (PID r <> 0%Z -> rState r = StateRunning) /\
  (rState r = StateStarting \/ rState r = StateStopped \/ rState r = StateFailed ->
   PID r = 0%Z).

(** The call is not a [Set], or it hands over a record with the invariant. *)
Definition write_ok (c : call) : Prop :=
  match write_of c with
  | Some (_, r, _) => pid_invariant r
  | None => True
  end.

(** A record as the data model describes it: its state is one of the six,
    it carries a pid only while running and an error only when failed. *)
Definition valid_record (r : InstanceRecord) : Prop :=
  In (rState r) [StateUnknown; StateStarting; StateRunning; StateStopping;
                 StateStopped; StateFailed] /\
  (PID r <> 0%Z -> rState r = StateRunning) /\
  (LastError r <> "" -> rState r = StateFailed).

(** The [Get] calls of a trace: key and answer. *)
Definition get_of (c : call) : option (string * (value + error)) :=
  match c with
  | Call e x =>
      match e in event X return X -> option (string * (value + error)) with
      | DbGet k => fun res => Some (k, res)
      | _ => fun _ => None
      end x
  end.

Definition gets (tr : list call) : list (string * (value + error)) := omap get_of tr.

(** The liveness probes of a trace, [syscall.Kill(pid, 0)], with their answer. *)
Definition probe_of (c : call) : option (Z * option Errno) :=
  match c with
  | Call e x =>
      match e in event X return X -> option (Z * option Errno) with
      | Kill pid Sig0 => fun res => Some (pid, res)
      | _ => fun _ => None
      end x
  end.

Definition probes (tr : list call) : list (Z * option Errno) := omap probe_of tr.

(** A call that neither writes to the store, nor launches a command, nor
    is a failed lookup of a process handle. *)
Definition quiet (c : call) : Prop :=
  write_of c = None /\ spawn_of c = None /\ lookup_failure_of c = None.

(** The record synthesized for a key the store has nothing for. *)
Definition unknownAt (t : Time) : InstanceRecord :=
  setUpdatedAt t (setState StateUnknown zeroRecord).

(** The error, if any, of pushing a stored value through the codec the
    way [loadRecord] does. *)
Definition decode_error (v : value) : option error :=
  match Marshal v with
  | inr e => Some e
  | inl b => snd (Unmarshal b zeroRecord)
  end.

(** The world in which [saveRecord] reads the clock: after the key has been
    formatted. *)
Definition keyWorld {W} (h : handler W) (i : Impl) (absPath : string) (w : W) : W :=
  match i with
  | withOptions c =>
      if Configurable.useAbsPaths c then snd (h _ (Abs absPath) w) else w
  | plain _ => snd (h _ (Abs absPath) w)
  end.

(** The error that makes [Stop] return before it touches the process:
    normalizing the path failed, or (with options) loading the record did. *)
Definition stop_early_error {W} (h : handler W) (i : Impl) (path : string) (w : W)
  : option error :=
  match h _ (Abs path) w with
  | (inr e, _) => Some e
  | (inl absPath, w') =>
      match i with
      | withOptions c => snd (result (run h (Configurable.loadRecord c absPath) w'))
      | plain _ => None
      end
  end.

(** [Stop] returns an error exactly when looking up the process handle
    fails, said of one run. *)
Definition stop_fails_iff_lookup_fails {W} (h : handler W) (i : Impl) (fuel : nat)
    (path : string) (w : W) : Prop :=
  let o := run h (StopOf i fuel path) w in
  (exists e, result o = Some (Some e)) <-> lookup_failures (trace o) <> [].

(** The records [Stop] writes. *)
Definition stoppedAt (stopped updated : Time) : InstanceRecord :=
  setUpdatedAt updated (setStoppedAt stopped (setState StateStopped zeroRecord)).
Definition failedWith (e : error) (updated : Time) : InstanceRecord :=
  setUpdatedAt updated (setLastError e (setState StateFailed zeroRecord)).

(** How a run of [Stop] ends once the record is loaded: with success and
    one stopped record handed to the store when no lookup of the process
    handle failed, with the lookup's error and one failed record carrying
    it otherwise. *)
Definition stop_done {W} (absPath : string) (o : outcome W (option (option error))) : Prop :=
  exists res, result o = Some res /\
    match lookup_failures (trace o) with
    | [] => res = None /\
            exists t t' ans, writes (trace o) = [(dbKey absPath, stoppedAt t t', ans)]
    | e :: rest => rest = [] /\ res = Some e /\
            exists t' ans, writes (trace o) = [(dbKey absPath, failedWith e t', ans)]
    end.

(** How a run of [Stop] ends: with the early error and nothing written,
    or as [stop_done] says. *)
Definition stop_outcome {W} (h : handler W) (i : Impl) (path : string) (w : W)
    (o : outcome W (option (option error))) : Prop :=
  match stop_early_error h i path w with
  | Some e => result o = Some (Some e) /\ writes (trace o) = [] /\
              lookup_failures (trace o) = []
  | None => exists absPath, fst (h _ (Abs path) w) = inl absPath /\ stop_done absPath o
  end.

(** The codec returns what was stored: marshalling the boxed record and
    unmarshalling into a zero record gives the record back.  For
    [encoding/json] this holds when the strings of the record are valid
    UTF-8 and its times have a four-digit year. *)
Definition json_roundtrips (r : InstanceRecord) : Prop :=
  exists b, Marshal (box r) = inl b /\ Unmarshal b zeroRecord = (r, None).

(** Saving [r] under [path] and loading it again gives [r] back in every
    field but [updated_at], and an [updated_at] that is not earlier than
    the one [r] had, said of one run. *)
Definition save_load_round_trip {W} (h : handler W) (i : Impl) (path : string)
    (r : InstanceRecord) (w : W) : Prop :=
  let saved := run h (saveRecordOf i path r) w in
  let loaded := fst (result (run h (loadRecordOf i path) (final saved))) in
  rState loaded = rState r /\ PID loaded = PID r /\
  StartedAt loaded = StartedAt r /\ StoppedAt loaded = StoppedAt r /\
  LastError loaded = LastError r /\
  (UpdatedAt r <= UpdatedAt loaded)%Z.

End Dispatch.

(** ** A simulated environment

    An in-memory store in the manner of the [fakeDB] of the tests, with a
    clock, a process table and switches that make single calls fail.  It
    is used to run the programs on concrete inputs. *)

Module Sim.

(** What the simulated store holds: a record as [Set] received it, a
    bare string, or a channel (which [json.Marshal] rejects). *)
Inductive stored :=
| SRecord (r : InstanceRecord)
| SString (s : string)
| SChan.

(** The JSON text of a stored value, by what it denotes. *)
Inductive document :=
| DObject (r : InstanceRecord)
| DString (s : string).

Definition marshal (v : stored) : document + error :=
  match v with
  | SRecord r => inl (DObject r)
  | SString s => inl (DString s)
  | SChan => inr "json: unsupported type: chan int"
  end.

Definition unmarshal (d : document) (r : InstanceRecord) : InstanceRecord * option error :=
  match d with
  | DObject r' => (r', None)
  | DString _ =>
      (r, Some "json: cannot unmarshal string into Go value of type instancecontrol.InstanceRecord")
  end.

#[export] Instance json : Json := {|
  value := stored;
  bytes := document;
  box := SRecord;
  Marshal := marshal;
  Unmarshal := unmarshal
|}.

Record procInfo := mkProc {
  foreign : bool;      (* owned by another user: signals answer EPERM *)
  ignoresTERM : bool   (* keeps running on SIGTERM *)
}.

Record World := mkWorld {
  clock : Z;
  db : gmap string stored;
  dbDown : bool;        (* the store answers every call with an error *)
  getwdFails : bool;    (* the working directory is gone *)
  procs : gmap Z procInfo;
  nextPid : Z;
  canExec : bool;       (* [cmd.Start] finds the program *)
  findFails : bool      (* [os.FindProcess] fails *)
}.

Definition setClock (t : Z) (w : World) : World :=
  mkWorld t (db w) (dbDown w) (getwdFails w) (procs w) (nextPid w) (canExec w) (findFails w).
Definition setDb (d : gmap string stored) (w : World) : World :=
  mkWorld (clock w) d (dbDown w) (getwdFails w) (procs w) (nextPid w) (canExec w) (findFails w).
Definition setProcs (p : gmap Z procInfo) (w : World) : World :=
  mkWorld (clock w) (db w) (dbDown w) (getwdFails w) p (nextPid w) (canExec w) (findFails w).
Definition setNextPid (n : Z) (w : World) : World :=
  mkWorld (clock w) (db w) (dbDown w) (getwdFails w) (procs w) n (canExec w) (findFails w).

(** Delivery of a signal to [pid]. *)
Definition deliver (pid : Z) (sig : Signal) (w : World) : option Errno * World :=
  match procs w !! pid with
  | None => (Some ESRCH, w)
  | Some p =>
      if foreign p then (Some EPERM, w)
      else match sig with
           | Sig0 => (None, w)
           | SIGTERM =>
               if ignoresTERM p then (None, w)
               else (None, setProcs (delete pid (procs w)) w)
           | SIGKILL => (None, setProcs (delete pid (procs w)) w)
           end
  end.

Definition errnoText (e : Errno) : error :=
  if Z.eqb e EPERM then "operation not permitted" else "no such process".

Definition os : handler World := fun X e =>
  match e in event X return World -> X * World with
  | Abs p => fun w =>
      if String.prefix "/" p then (inl p, w)
      else if getwdFails w then (inr "getwd: no such file or directory", w)
      else (inl ("/srv/" +:+ p), w)
  | Now => fun w => (clock w, setClock (clock w + 1)%Z w)
  | Sleep d => fun w => (tt, setClock (clock w + Z.max d 0)%Z w)
  | DbGet k => fun w =>
      if dbDown w then (inr "store unavailable", w)
      else match db w !! k with
           | Some v => (inl v, w)
           | None => (inr "key not found", w)
           end
  | DbSet k r => fun w =>
      if dbDown w then (Some "store unavailable", w)
      else (None, setDb (<[k := SRecord r]> (db w)) w)
  | Kill pid sig => fun w => deliver pid sig w
  | MkdirAll _ => fun w => (None, w)
  | OpenFile _ => fun w => (Some 3%Z, w)
  | CloseFile _ => fun w => (tt, w)
  | CmdStart cmd => fun w =>
      if canExec w then
        (inl (nextPid w),
         setNextPid (nextPid w + 1)%Z
           (setProcs (<[nextPid w := mkProc false false]> (procs w)) w))
      else (inr "exec: executable file not found in $PATH", w)
  | CmdWait _ => fun w => (None, w)
  | FindProcess pid => fun w =>
      if findFails w then (inr "os: process not initialized", w) else (inl pid, w)
  | ProcSignal p sig => fun w =>
      let '(r, w') := deliver p sig w in (errnoText <$> r, w')
  | Go _ _ _ _ => fun w => (tt, w)
  | Lock => fun w => (tt, w)
  | Unlock => fun w => (tt, w)
  end.

(** A fresh machine at clock reading [t], with an empty store. *)
Definition boot (t : Z) : World := mkWorld t ∅ false false ∅ 100 true false.

Definition content (w : World) (k : string) : option stored :=
  if dbDown w then None else db w !! k.

(** Scenario builders. *)
Definition withProcess (pid : Z) (p : procInfo) (w : World) : World :=
  setProcs (<[pid := p]> (procs w)) w.
Definition withStored (k : string) (v : stored) (w : World) : World :=
  setDb (<[k := v]> (db w)) w.
Definition withStoreDown (w : World) : World :=
  mkWorld (clock w) (db w) true (getwdFails w) (procs w) (nextPid w) (canExec w) (findFails w).
Definition withoutWorkingDir (w : World) : World :=
  mkWorld (clock w) (db w) (dbDown w) true (procs w) (nextPid w) (canExec w) (findFails w).
Definition withFailingLookup (w : World) : World :=
  mkWorld (clock w) (db w) (dbDown w) (getwdFails w) (procs w) (nextPid w) (canExec w) true.

(** A running record for [pid], as [Start] leaves it. *)
Definition runningRecord (pid : Z) (t : Time) : InstanceRecord :=
  mkRecord StateRunning pid t 0 t "".

End Sim.

(** ** A simulated environment with a read-only file system *)

(** As [Sim.os], but [os.MkdirAll] fails. *)
Definition readOnlyOs : handler Sim.World := fun X e =>
  match e as e0 in event X0 return event X0 -> Sim.World -> X0 * Sim.World with
  | MkdirAll _ => fun _ w => (Some "mkdir: read-only file system", w)
  | _ => fun e0 w => Sim.os _ e0 w
  end e.

(** ** A simulated environment whose processes die by a signal *)

(** As [Sim.os], but [cmd.Wait] reports that the child was killed. *)
Definition killedOs : handler Sim.World := fun X e =>
  match e as e0 in event X0 return event X0 -> Sim.World -> X0 * Sim.World with
  | CmdWait _ => fun _ w => (Some "signal: killed", w)
  | _ => fun e0 w => Sim.os _ e0 w
  end e.

(** ** Watch tasks running side by side

    The goroutines that [Start] launches share the controller.  A [pool]
    holds the remaining program of each of them, whether [watchLock] is
    held, the processes that have exited with their exit error, and the
    records handed to the store so far.  A step lets one goroutine make
    its next call: [Lock] only when the lock is free, [cmd.Wait] only when
    the process has exited; any other call returns with whatever the
    environment answers.  Processes do not exit during the steps: the pool
    describes what the goroutines can do while the running ones keep
    running. *)

Section Pool.
Context `{Json}.

Record shared := mkShared {
  held : bool;
  exited : Z -> option (option error);
  persisted : list (string * InstanceRecord)
}.

(** What call [e] may be answered with in [s], and what it leaves. *)
Definition answers (s : shared) {X} (e : event X) : X -> shared -> Prop :=
  match e in event X return X -> shared -> Prop with
  | Lock => fun _ s' =>
      held s = false /\ s' = mkShared true (exited s) (persisted s)
  | Unlock => fun _ s' => s' = mkShared false (exited s) (persisted s)
  | CmdWait pid => fun st s' => exited s pid = Some st /\ s' = s
  | DbSet k r => fun _ s' =>
      s' = mkShared (held s) (exited s) (persisted s ++ [(k, r)])%list
  | _ => fun _ s' => s' = s
  end.

(** One call of a goroutine whose remaining program is [t]. *)
Definition thread_step (s : shared) (t : prog unit) (t' : prog unit) (s' : shared) : Prop :=
  match t with
  | Ret _ => False
  | Vis e k => exists x, answers s e x s' /\ t' = k x
  end.

Record pool := mkPool {
  threads : list (prog unit);
  env : shared
}.

Definition step (p q : pool) : Prop :=
  exists i t t',
    threads p !! i = Some t /\
    thread_step (env p) t t' (env q) /\
    threads q = <[i := t']> (threads p).

Inductive steps : pool -> pool -> Prop :=
| steps_refl p : steps p p
| steps_step p q r : step p q -> steps q r -> steps p r.

(** Two instances: the process of [/a] (pid 101) is still running, the
    process of [/b] (pid 102) has exited cleanly; both watch tasks are at
    their beginning and the lock is free. *)
Definition twoWatchers (i : Impl) : pool :=
  mkPool [watchOf i "/a" 101 None None; watchOf i "/b" 102 None None]
         (mkShared false (fun pid => if Z.eqb pid 102 then Some None else None) []).

End Pool.

(** ** Further views of a trace *)

Section MoreViews.
Context `{Json}.

(** The [filepath.Abs] calls of a trace that failed, with their error. *)
Definition abs_failure_of (c : call) : option error :=
  match c with
  | Call e x =>
      match e in event X return X -> option error with
      | Abs _ => fun res => match res with inr err => Some err | inl _ => None end
      | _ => fun _ => None
      end x
  end.

Definition abs_failures (tr : list call) : list error := omap abs_failure_of tr.

(** The watch tasks a trace launched: path, pid and the two log files. *)
Definition launch_of (c : call) : option (string * Z * option File * option File) :=
  match c with
  | Call e x =>
      match e in event X return X -> option (string * Z * option File * option File) with
      | Go absPath pid out err => fun _ => Some (absPath, pid, out, err)
      | _ => fun _ => None
      end x
  end.

Definition launches (tr : list call) : list (string * Z * option File * option File) :=
  omap launch_of tr.

(** The answers of the [os.OpenFile] calls of a trace. *)
Definition open_of (c : call) : option (option File) :=
  match c with
  | Call e x =>
      match e in event X return X -> option (option File) with
      | OpenFile _ => fun res => Some res
      | _ => fun _ => None
      end x
  end.

Definition opens (tr : list call) : list (option File) := omap open_of tr.

(** The files a trace closed. *)
Definition close_of (c : call) : option File :=
  match c with
  | Call e x =>
      match e in event X return X -> option File with
      | CloseFile f => fun _ => Some f
      | _ => fun _ => None
      end x
  end.

Definition closes (tr : list call) : list File := omap close_of tr.

(** The signals a trace sent through a process handle. *)
Definition signal_of (c : call) : option (Process * Signal) :=
  match c with
  | Call e x =>
      match e in event X return X -> option (Process * Signal) with
      | ProcSignal p sig => fun _ => Some (p, sig)
      | _ => fun _ => None
      end x
  end.

Definition signals (tr : list call) : list (Process * Signal) := omap signal_of tr.

(** The durations a trace slept. *)
Definition sleep_of (c : call) : option Duration :=
  match c with
  | Call e x =>
      match e in event X return X -> option Duration with
      | Sleep d => fun _ => Some d
      | _ => fun _ => None
      end x
  end.

Definition sleeps (tr : list call) : list Duration := omap sleep_of tr.

(** What a trace did to [watchLock]. *)
Inductive lockOp := Acquire | Release.

Definition lock_of (c : call) : option lockOp :=
  match c with
  | Call e x =>
      match e in event X return X -> option lockOp with
      | Lock => fun _ => Some Acquire
      | Unlock => fun _ => Some Release
      | _ => fun _ => None
      end x
  end.

Definition lock_ops (tr : list call) : list lockOp := omap lock_of tr.

(** The [cmd.Wait] calls of a trace: pid and exit error. *)
Definition wait_of (c : call) : option (Z * option error) :=
  match c with
  | Call e x =>
      match e in event X return X -> option (Z * option error) with
      | CmdWait pid => fun res => Some (pid, res)
      | _ => fun _ => None
      end x
  end.

Definition waits (tr : list call) : list (Z * option error) := omap wait_of tr.

(** The records handed to [Set], in order. *)
Definition records (tr : list call) : list InstanceRecord :=
  map (fun x => snd (fst x)) (writes tr).

(** How version [i] reads the answer of the existence probe. *)
Definition answer_alive (i : Impl) (a : option Errno) : bool :=
  match a with
  | None => true
  | Some e =>
      match i with
      | withOptions _ => errors_Is e EPERM
      | plain _ => false
      end
  end.

(** The call is not a [Set], or it hands over a record that satisfies [R]. *)
Definition write_sat (R : InstanceRecord -> Prop) (c : call) : Prop :=
  match write_of c with
  | Some (_, r, _) => R r
  | None => True
  end.

(** The fields that belong to one state only appear with it, and the state
    is one of the four that are ever written. *)
Definition field_discipline (r : InstanceRecord) : Prop :=
  (rState r = StateStarting \/ rState r = StateRunning \/
   rState r = StateStopped \/ rState r = StateFailed) /\
  (LastError r <> "" -> rState r = StateFailed) /\
  (StartedAt r <> 0%Z -> rState r = StateRunning) /\
  (StoppedAt r <> 0%Z -> rState r = StateStopped).

(** The command [Start] launches: the caller's, or the default when the
    caller gave none. *)
Definition effectiveCmd (i : Impl) (launchCmd : list string) : list string :=
  match i with
  | withOptions c =>
      if Nat.eqb (length launchCmd) 0 then Configurable.defaultCmd c else launchCmd
  | plain _ => launchCmd
  end.

End MoreViews.

(** ** What Stop sends and how long it polls *)

Section StopViews.
Context `{Json}.

(** The polling loop launches nothing, leaves files and lock alone, sleeps
    the poll interval only, and sends nothing or the forced kill after
    probes that were all answered alive. *)
Definition loop_sends (i : Impl) (proc : Process) (tr : list call) : Prop :=
  spawns tr = [] /\ launches tr = [] /\ lock_ops tr = [] /\
  opens tr = [] /\ closes tr = [] /\
  Forall (fun d => d = pollInterval) (sleeps tr) /\
  (signals tr = [] \/
   (signals tr = [(proc, SIGKILL)] /\
    Forall (fun p => answer_alive i (snd p) = true) (probes tr))).

(** [Stop] launches nothing, leaves files and lock alone, sleeps the poll
    interval only, and sends nothing, or a termination request, or a
    termination request followed by a forced kill through the same handle
    after probes that were all answered alive. *)
Definition stop_sends (i : Impl) (tr : list call) : Prop :=
  spawns tr = [] /\ launches tr = [] /\ lock_ops tr = [] /\
  opens tr = [] /\ closes tr = [] /\
  Forall (fun d => d = pollInterval) (sleeps tr) /\
  (signals tr = [] \/
   exists p, signals tr = [(p, SIGTERM)] \/
             (signals tr = [(p, SIGTERM); (p, SIGKILL)] /\
              Forall (fun q => answer_alive i (snd q) = true) (probes tr))).

(** The call is not a sleep. *)
Definition sleepless (c : call) : Prop := sleep_of c = None.

(** The trace has no sleep, or all its sleeps but the last fit in [bound]. *)
Definition polls_within (bound : Z) (tr : list call) : Prop :=
  sleeps tr = [] \/
  ((Z.of_nat (length (sleeps tr)) - 1) * pollInterval < bound)%Z.

End StopViews.

(** ** Keys, directories and normalized paths in a trace *)

Section KeyViews.
Context `{Json}.

(** The answers of the [filepath.Abs] calls of a trace that succeeded. *)
Definition abs_answer_of (c : call) : option string :=
  match c with
  | Call e x =>
      match e in event X return X -> option string with
      | Abs _ => fun res => match res with inl q => Some q | inr _ => None end
      | _ => fun _ => None
      end x
  end.

Definition abs_answers (tr : list call) : list string := omap abs_answer_of tr.

(** The [os.MkdirAll] calls of a trace that failed, with their error. *)
Definition mkdir_failure_of (c : call) : option error :=
  match c with
  | Call e x =>
      match e in event X return X -> option error with
      | MkdirAll _ => fun res => res
      | _ => fun _ => None
      end x
  end.

Definition mkdir_failures (tr : list call) : list error := omap mkdir_failure_of tr.

(** The [filepath.Abs] calls of a trace: argument and answer. *)
Definition abs_call_of (c : call) : option (string * (string + error)) :=
  match c with
  | Call e x =>
      match e in event X return X -> option (string * (string + error)) with
      | Abs p => fun res => Some (p, res)
      | _ => fun _ => None
      end x
  end.

Definition abs_calls (tr : list call) : list (string * (string + error)) :=
  omap abs_call_of tr.

(** The directories a trace asked [os.MkdirAll] for. *)
Definition mkdir_of (c : call) : option string :=
  match c with
  | Call e x =>
      match e in event X return X -> option string with
      | MkdirAll p => fun _ => Some p
      | _ => fun _ => None
      end x
  end.

Definition mkdirs (tr : list call) : list string := omap mkdir_of tr.

(** The [os.OpenFile] calls of a trace: file name and answer. *)
Definition opened_of (c : call) : option (string * option File) :=
  match c with
  | Call e x =>
      match e in event X return X -> option (string * option File) with
      | OpenFile p => fun res => Some (p, res)
      | _ => fun _ => None
      end x
  end.

Definition opened (tr : list call) : list (string * option File) := omap opened_of tr.

(** [k] is a key that [saveRecord] can form for [absPath] in a run with
    trace [tr]: the prefix followed by [absPath] itself, or by what a
    [filepath.Abs] call on [absPath] answered in that run. *)
Definition key_for (absPath : string) (tr : list call) (k : string) : Prop :=
  k = dbKey absPath \/ exists q, In (absPath, inl q) (abs_calls tr) /\ k = dbKey q.

(** The path whose key [saveRecord] and [loadRecord] of version [i] use
    for [path], in a run with trace [tr]: [path] itself when the version
    with options is told not to normalize, else what [filepath.Abs]
    answered. *)
Definition keyed_path (i : Impl) (path : string) (tr : list call) : string :=
  match i with
  | withOptions c =>
      if Configurable.useAbsPaths c then hd path (abs_answers tr) else path
  | plain _ => hd path (abs_answers tr)
  end.

End KeyViews.

(** ** Functional options *)

Module Options.
Section Code.

(** The values of the [DB] interface. *)
Variable DB : Type.
(** [mineDBAdapter{}] *)
Variable mineDBAdapter : DB.

(** [Controller] with its store. *)
Record Controller := mkController {
  data : Configurable.Controller;
  db : DB
}.

Definition Option := Controller -> Controller.

Definition WithGracePeriod (d : Duration) : Option := fun c =>
  mkController
    (Configurable.mkController d (Configurable.defaultCmd (data c))
       (Configurable.useAbsPaths (data c)))
    (db c).

(** [append([]string(nil), cmd...)] is a fresh copy of [cmd]. *)
Definition WithDefaultCmd (cmd : list string) : Option := fun c =>
  mkController
    (Configurable.mkController (Configurable.gracePeriod (data c)) ([] ++ cmd)%list
       (Configurable.useAbsPaths (data c)))
    (db c).

Definition WithUseAbsPaths (use : bool) : Option := fun c =>
  mkController
    (Configurable.mkController (Configurable.gracePeriod (data c))
       (Configurable.defaultCmd (data c)) use)
    (db c).

Definition WithDB (d : DB) : Option := fun c => mkController (data c) d.

Definition NewController (opts : list Option) : Controller :=
  fold_left (fun c o => o c) opts
    (mkController (Configurable.mkController (Z.mul 10 Second) [] true) mineDBAdapter).

End Code.
End Options.

(** ** The in-memory store of the tests *)

Module FakeDB.
Section Code.
Context `{Json}.


Definition ErrKeyNotFound : error := "key not found".

Definition Set_ (f : gmap string value) (key : string) (v : value)
  : gmap string value * option error :=
  (<[key := v]> f, None).

Definition Get (f : gmap string value) (key : string) : value + error :=
  match f !! key with
  | Some v => inl v
  | None => inr ErrKeyNotFound
  end.

(** A controller built [WithDB(fakeDB)]: [Get] and [Set] go to the map,
    every other call to the rest of the environment. *)
Definition serve {W} (inner : handler W) : handler (gmap string value * W) :=
  fun X e =>
    match e as e0 in event X0
          return event X0 -> gmap string value * W -> X0 * (gmap string value * W) with
    | DbGet k => fun _ s => (Get (fst s) k, s)
    | DbSet k r => fun _ s =>
        (snd (Set_ (fst s) k (box r)), (fst (Set_ (fst s) k (box r)), snd s))
    | _ => fun e0 s => (fst (inner _ e0 (snd s)), (fst s, snd (inner _ e0 (snd s))))
    end e.

End Code.
End FakeDB.

(** * Properties *)

(** ** Running programs *)

Section RunFacts.
Context `{Json}.

Lemma run_bind {W A B} (h : handler W) (m : prog A) (f : A -> prog B) w :
  run h (bind m f) w =
  mkOutcome (result (run h (f (result (run h m w))) (final (run h m w))))
            (final (run h (f (result (run h m w))) (final (run h m w))))
            (trace (run h m w) ++ trace (run h (f (result (run h m w))) (final (run h m w))))%list.
Proof.
  revert w. induction m as [a | X e k IH]; intros w; simpl.
  - destruct (run h (f a) w); reflexivity.
  - rewrite IH. reflexivity.
Qed.

Lemma run_call {W X} (h : handler W) (e : event X) w :
  run h (call_ e) w = mkOutcome (fst (h _ e w)) (snd (h _ e w)) [Call e (fst (h _ e w))].
Proof. reflexivity. Qed.

Lemma always_bind {A B} (P : call -> Prop) (m : prog A) (f : A -> prog B) :
  always P m -> (forall a, always P (f a)) -> always P (bind m f).
Proof.
  induction m as [a | X e k IH]; simpl; intros Hm Hf.
  - apply Hf.
  - intros x. destruct (Hm x) as [Hx Hk]. split; [exact Hx | apply IH; assumption].
Qed.

Lemma always_run {W A} (P : call -> Prop) (h : handler W) (p : prog A) w :
  always P p -> Forall P (trace (run h p w)).
Proof.
  revert w. induction p as [a | X e k IH]; intros w Hp; simpl.
  - constructor.
  - destruct (Hp (fst (h X e w))) as [Hx Hk]. constructor; [exact Hx | apply IH, Hk].
Qed.

Lemma all_runs_run {W A} (h : handler W) (p : prog A) (Q : list call -> A -> Prop) w :
  all_runs p Q -> Q (trace (run h p w)) (result (run h p w)).
Proof.
  revert Q w. induction p as [a | X e k IH]; simpl; intros Q w Hp.
  - exact Hp.
  - apply (IH (fst (h X e w)) (fun tr a => Q (Call e (fst (h X e w)) :: tr) a)), Hp.
Qed.

Lemma writes_app (tr1 tr2 : list call) : writes (tr1 ++ tr2)%list = (writes tr1 ++ writes tr2)%list.
Proof. apply omap_app. Qed.

Lemma spawns_app (tr1 tr2 : list call) : spawns (tr1 ++ tr2)%list = (spawns tr1 ++ spawns tr2)%list.
Proof. apply omap_app. Qed.

Lemma lookup_failures_app (tr1 tr2 : list call) :
  lookup_failures (tr1 ++ tr2)%list = (lookup_failures tr1 ++ lookup_failures tr2)%list.
Proof. apply omap_app. Qed.

Lemma writes_cons (c : call) (tr : list call) :
  writes (c :: tr) =
  match write_of c with Some x => x :: writes tr | None => writes tr end.
Proof. reflexivity. Qed.

Lemma spawns_cons (c : call) (tr : list call) :
  spawns (c :: tr) =
  match spawn_of c with Some x => x :: spawns tr | None => spawns tr end.
Proof. reflexivity. Qed.

Lemma lookup_failures_cons (c : call) (tr : list call) :
  lookup_failures (c :: tr) =
  match lookup_failure_of c with
  | Some x => x :: lookup_failures tr
  | None => lookup_failures tr
  end.
Proof. reflexivity. Qed.

End RunFacts.

(** Pushes the projections of a trace through its conses and appends. *)
Ltac split_trace :=
  repeat first
    [ rewrite writes_app | rewrite spawns_app | rewrite lookup_failures_app
    | rewrite writes_cons | rewrite spawns_cons | rewrite lookup_failures_cons ];
  cbn [write_of spawn_of lookup_failure_of].

(** Walks through a program tree for an [always] goal. *)
Ltac walk_always :=
  repeat first
    [ exact I
    | assumption
    | match goal with
      | |- always _ (bind _ _) => apply always_bind; [| intros ?]
      | |- always _ (call_ _) => intros ?; split; [| exact I]
      | |- always _ (Vis _ _) => intros ?; split
      | |- always _ (Ret _) => exact I
      | |- always _ (closeIfOpen ?f) => is_var f; destruct f; cbn [closeIfOpen]
      | |- always _ (match ?x with _ => _ end) => destruct x
      | |- always _ (if ?b then _ else _) => destruct b
      end ].

(** ** The pid invariant of written records *)

Section PidInvariant.
Context `{Json}.

Lemma pid_invariant_zero_pid r : PID r = 0%Z -> pid_invariant r.
Proof. intros Hp. split; intros; [congruence | exact Hp]. Qed.

Lemma pid_invariant_running r : rState r = StateRunning -> pid_invariant r.
Proof.
  intros Hs. split; [intros _; exact Hs |].
  rewrite Hs. intros [Hc | [Hc | Hc]]; discriminate Hc.
Qed.

Lemma formatDBKey_never_writes c path : always write_ok (Configurable.formatDBKey c path).
Proof. unfold Configurable.formatDBKey. walk_always. Qed.

Lemma dbKeyFor_never_writes path : always write_ok (Basic.dbKeyFor path).
Proof. unfold Basic.dbKeyFor. walk_always. Qed.

Lemma saveRecord_write_ok i path r :
  pid_invariant r -> always write_ok (saveRecordOf i path r).
Proof.
  intros Hr. destruct i as [c | c]; unfold saveRecordOf,
    Configurable.saveRecord, Basic.saveRecord.
  - apply always_bind; [apply formatDBKey_never_writes |]. intros [key [e |]]; walk_always.
  - apply always_bind; [apply dbKeyFor_never_writes |]. intros [key [e |]]; walk_always.
Qed.

Lemma loadRecord_write_ok i path : always write_ok (loadRecordOf i path).
Proof.
  destruct i as [c | c]; unfold loadRecordOf, Configurable.loadRecord, Basic.loadRecord.
  - apply always_bind; [apply formatDBKey_never_writes |]. intros [key [e |]]; walk_always.
  - apply always_bind; [apply dbKeyFor_never_writes |]. intros [key [e |]]; walk_always.
Qed.

Lemma isPidAlive_write_ok i pid : always write_ok (isPidAliveOf i pid).
Proof.
  destruct i as [c | c]; unfold isPidAliveOf, Configurable.isPidAlive, Basic.isPidAlive;
    walk_always.
Qed.

End PidInvariant.

Section PidInvariantOperations.
Context `{Json}.

Ltac walk_ops i :=
  repeat match goal with
    | |- True => exact I
    | |- always _ (Configurable.loadRecord _ _) => apply (loadRecord_write_ok i)
    | |- always _ (Basic.loadRecord _ _) => apply (loadRecord_write_ok i)
    | |- always _ (Configurable.isPidAlive _) => apply (isPidAlive_write_ok i)
    | |- always _ (Basic.isPidAlive _) => apply (isPidAlive_write_ok i)
    | |- always _ (Configurable.saveRecord _ _ _) => apply (saveRecord_write_ok i)
    | |- always _ (Basic.saveRecord _ _ _) => apply (saveRecord_write_ok i)
    | |- pid_invariant _ =>
        first [ apply pid_invariant_zero_pid; reflexivity
              | apply pid_invariant_running; reflexivity ]
    | |- always _ (bind _ _) => apply always_bind; [| intros ?]
    | |- always _ (call_ _) => intros ?; split; [exact I | exact I]
    | |- always _ (Ret _) => exact I
    | |- always _ (closeIfOpen ?f) => is_var f; destruct f; cbn [closeIfOpen]
    | |- always _ (match ?x with _ => _ end) => destruct x
    | |- always _ (if ?b then _ else _) => destruct b
    end.

Lemma Start_write_ok i path cmd : always write_ok (StartOf i path cmd).
Proof.
  destruct i as [c | c];
    unfold StartOf, Configurable.Start, Basic.Start,
      Configurable.pidSetAndAlive, Basic.pidSetAndAlive.
  - walk_ops (withOptions c).
  - walk_ops (plain c).
Qed.

Lemma stopLoop_write_ok_configurable fuel c absPath pid proc deadline :
  always write_ok (Configurable.stopLoop fuel c absPath pid proc deadline).
Proof.
  induction fuel as [| fuel IH]; [exact I |].
  cbn [Configurable.stopLoop]. walk_ops (withOptions c). exact IH.
Qed.

Lemma stopLoop_write_ok_basic fuel c absPath pid proc deadline :
  always write_ok (Basic.stopLoop fuel c absPath pid proc deadline).
Proof.
  induction fuel as [| fuel IH]; [exact I |].
  cbn [Basic.stopLoop]. walk_ops (plain c). exact IH.
Qed.

Lemma Stop_write_ok i fuel path : always write_ok (StopOf i fuel path).
Proof.
  destruct i as [c | c];
    unfold StopOf, Configurable.Stop, Basic.Stop,
      Configurable.pidSetAndAlive, Basic.pidSetAndAlive.
  - walk_ops (withOptions c). apply stopLoop_write_ok_configurable.
  - walk_ops (plain c). apply stopLoop_write_ok_basic.
Qed.

Lemma GetState_write_ok i path : always write_ok (GetStateOf i path).
Proof.
  destruct i as [c | c]; unfold GetStateOf, Configurable.GetState, Basic.GetState.
  - walk_ops (withOptions c).
  - walk_ops (plain c).
Qed.

Lemma watch_write_ok i absPath pid out err : always write_ok (watchOf i absPath pid out err).
Proof.
  destruct i as [c | c]; unfold watchOf, Configurable.watchProcess, Basic.watch.
  - walk_ops (withOptions c).
  - walk_ops (plain c).
Qed.

Lemma write_ok_writes (tr : list call) :
  Forall write_ok tr -> Forall (fun w => pid_invariant (snd (fst w))) (writes tr).
Proof.
  induction 1 as [| c tr Hc _ IH]; [constructor |].
  unfold writes. cbn [omap list_omap]. fold (writes tr).
  unfold write_ok in Hc. destruct (write_of c) as [[[k r] res] |]; [| exact IH].
  constructor; [exact Hc | exact IH].
Qed.

(** C2. Every record that Start, Stop, GetState or the watch task hands to
    the store's Set has state running if its pid is nonzero, and has pid
    zero if its state is starting, stopped or failed; this holds in both
    versions of the package, whatever the environment answers. *)
Theorem written_records_keep_pid_invariant :
  forall (W : Type) (h : handler W) (i : Impl) (w : W),
    (forall path cmd,
       Forall (fun x => pid_invariant (snd (fst x)))
              (writes (trace (run h (StartOf i path cmd) w)))) /\
    (forall fuel path,
       Forall (fun x => pid_invariant (snd (fst x)))
              (writes (trace (run h (StopOf i fuel path) w)))) /\
    (forall path,
       Forall (fun x => pid_invariant (snd (fst x)))
              (writes (trace (run h (GetStateOf i path) w)))) /\
    (forall absPath pid out err,
       Forall (fun x => pid_invariant (snd (fst x)))
              (writes (trace (run h (watchOf i absPath pid out err) w)))).
Proof.
  intros W h i w. repeat split; intros; apply write_ok_writes, always_run.
  - apply Start_write_ok.
  - apply Stop_write_ok.
  - apply GetState_write_ok.
  - apply watch_write_ok.
Qed.

End PidInvariantOperations.

(** ** The liveness check *)

Section Liveness.
Context `{Json}.

Lemma isPidAlive_configurable_run {W} (h : handler W) pid w :
  result (run h (Configurable.isPidAlive pid) w) =
  if Z.leb pid 0 then false
  else match fst (h _ (Kill pid Sig0) w) with
       | None => true
       | Some e => Z.eqb e EPERM
       end.
Proof.
  unfold Configurable.isPidAlive. destruct (Z.leb pid 0); [reflexivity |].
  cbn. destruct (fst (h _ (Kill pid Sig0) w)) as [e |]; [| reflexivity].
  unfold errors_Is. destruct (Z.eqb e EPERM); reflexivity.
Qed.

Lemma isPidAlive_basic_run {W} (h : handler W) pid w :
  result (run h (Basic.isPidAlive pid) w) =
  if Z.leb pid 0 then false
  else match fst (h _ (Kill pid Sig0) w) with
       | None => true
       | Some _ => false
       end.
Proof.
  unfold Basic.isPidAlive. destruct (Z.leb pid 0); [reflexivity |].
  cbn. destruct (fst (h _ (Kill pid Sig0) w)) as [e |]; reflexivity.
Qed.

Lemma isPidAlive_nonpositive {W} (h : handler W) i pid w :
  (pid <= 0)%Z ->
  result (run h (isPidAliveOf i pid) w) = false /\
  trace (run h (isPidAliveOf i pid) w) = [].
Proof.
  intros Hp. apply Z.leb_le in Hp.
  destruct i; unfold isPidAliveOf, Configurable.isPidAlive, Basic.isPidAlive;
    rewrite Hp; split; reflexivity.
Qed.

Lemma isPidAlive_quiet i pid : always quiet (isPidAliveOf i pid).
Proof.
  destruct i; unfold isPidAliveOf, Configurable.isPidAlive, Basic.isPidAlive;
    destruct (Z.leb pid 0); try exact I;
    (intros x; split; [repeat split; reflexivity |]); destruct x as [e |]; cbn; try exact I.
  destruct (errors_Is e EPERM); exact I.
Qed.

End Liveness.

(** C5. When the existence probe of a positive pid is denied for lack of
    permission (EPERM), the liveness check of the version with options
    answers true, as the contract asks, and that of the basic version
    answers false. *)
Theorem isPidAlive_permission_denied :
  forall (J : Json) (W : Type) (h : handler W) (pid : Z) (w : W),
    (0 < pid)%Z ->
    fst (h _ (Kill pid Sig0) w) = Some EPERM ->
    result (run h (Configurable.isPidAlive pid) w) = true /\
    result (run h (Basic.isPidAlive pid) w) = false.
Proof.
  intros J W h pid w Hpos Hprobe.
  rewrite isPidAlive_configurable_run, isPidAlive_basic_run, Hprobe.
  assert (Z.leb pid 0 = false) as -> by (apply Z.leb_gt; exact Hpos).
  split; reflexivity.
Qed.

Lemma isPidAlive_permission_denied_witness :
  let w := Sim.withProcess 7 (Sim.mkProc true false) (Sim.boot 0) in
  (0 < 7)%Z /\
  fst (Sim.os _ (Kill 7 Sig0) w) = Some EPERM /\
  result (run Sim.os (Configurable.isPidAlive 7) w) = true /\
  result (run Sim.os (Basic.isPidAlive 7) w) = false.
Proof.
  intros w. split; [lia |]. split; [reflexivity |].
  apply (isPidAlive_permission_denied Sim.json Sim.World Sim.os 7 w); [lia | reflexivity].
Defined.

(** Walks through a program tree for an [all_runs] goal, down to the
    leaves. *)
Ltac walk_runs :=
  repeat (cbn [all_runs bind call_ closeIfOpen];
          match goal with
          | |- forall _, _ => intros ?
          | |- all_runs (bind (if ?b then _ else _) _) _ => destruct b eqn:?
          | |- all_runs (bind (match ?x with _ => _ end) _) _ => destruct x eqn:?
          | |- all_runs (bind (bind (if ?b then _ else _) _) _) _ => destruct b eqn:?
          | |- all_runs (bind (bind (match ?x with _ => _ end) _) _) _ => destruct x eqn:?
          | |- all_runs (bind (bind (bind (if ?b then _ else _) _) _) _) _ =>
              destruct b eqn:?
          | |- all_runs (bind (bind (bind (match ?x with _ => _ end) _) _) _) _ =>
              destruct x eqn:?
          | |- all_runs (if ?b then _ else _) _ => destruct b eqn:?
          | |- all_runs (match ?x with _ => _ end) _ => destruct x eqn:?
          | |- all_runs (let '(_, _) := ?x in _) _ => destruct x eqn:?
          | |- all_runs (bind (closeIfOpen ?f) _) _ => is_var f; destruct f
          | |- all_runs (closeIfOpen ?f) _ => is_var f; destruct f
          end).

(** Closes a branch of a walk whose recorded tests contradict each other. *)
Ltac absurd_branch :=
  match goal with
  | Hb : _ = _ |- _ => cbn in Hb; discriminate Hb
  end.

(** Resolves a hypothesis that an answer occurs among the [Get] calls of a
    concrete trace. *)
Ltac in_gets :=
  match goal with
  | Hin : In _ (gets _) |- _ =>
      cbn in Hin; repeat (destruct Hin as [Hin | Hin]);
      try discriminate Hin; try contradiction
  end.

(** ** Loading a record *)

Section Loading.
Context `{Json}.

Lemma loadRecord_retrieval_error i path :
  all_runs (loadRecordOf i path)
    (fun tr res => forall key e, In (key, inr e) (gets tr) ->
                   exists t, res = (unknownAt t, None)).
Proof.
  destruct i as [c | c];
    unfold loadRecordOf, Configurable.loadRecord, Basic.loadRecord,
      Configurable.formatDBKey, Basic.dbKeyFor;
    walk_runs; in_gets; eexists; reflexivity.
Qed.

Lemma GetState_retrieval_error i path :
  all_runs (GetStateOf i path)
    (fun tr res => forall key e, In (key, inr e) (gets tr) ->
                   exists t, res = (unknownAt t, None) /\ writes tr = [] /\ probes tr = []).
Proof.
  destruct i as [c | c];
    unfold GetStateOf, Configurable.GetState, Basic.GetState,
      Configurable.loadRecord, Basic.loadRecord,
      Configurable.saveRecord, Basic.saveRecord,
      Configurable.isPidAlive, Basic.isPidAlive,
      Configurable.formatDBKey, Basic.dbKeyFor;
    walk_runs; try absurd_branch; in_gets; eexists; repeat split; reflexivity.
Qed.

End Loading.

(** C6. Whenever the store's Get answers with an error, be it NotFound or
    any other, loadRecord returns the synthetic record (state unknown,
    updated_at the current time, nothing else set) and no error; and
    GetState on such a key returns that record and no error, without
    probing a process or writing to the store. *)
Theorem retrieval_error_yields_unknown :
  forall (J : Json) (W : Type) (h : handler W) (i : Impl) (path : string) (w : W)
         (key : string) (e : error),
    (In (key, inr e) (gets (trace (run h (loadRecordOf i path) w))) ->
     exists t, result (run h (loadRecordOf i path) w) = (unknownAt t, None)) /\
    (In (key, inr e) (gets (trace (run h (GetStateOf i path) w))) ->
     exists t, result (run h (GetStateOf i path) w) = (unknownAt t, None) /\
               rState (unknownAt t) = StateUnknown /\
               writes (trace (run h (GetStateOf i path) w)) = [] /\
               probes (trace (run h (GetStateOf i path) w)) = []).
Proof.
  intros J W h i path w key e. split; intros Hin.
  - exact (all_runs_run h _ _ w (loadRecord_retrieval_error i path) key e Hin).
  - destruct (all_runs_run h _ _ w (GetState_retrieval_error i path) key e Hin)
      as (t & Hres & Hw & Hp).
    exists t. repeat split; assumption.
Qed.

Lemma retrieval_error_yields_unknown_witness :
  let i := plain Basic.NewController in
  let w := Sim.boot 1000 in
  (In (dbKey "/never", inr "key not found")
      (gets (trace (run Sim.os (loadRecordOf i "/never") w))) /\
   exists t, result (run Sim.os (loadRecordOf i "/never") w) = (unknownAt t, None)) /\
  (In (dbKey "/never", inr "key not found")
      (gets (trace (run Sim.os (GetStateOf i "/never") w))) /\
   exists t, result (run Sim.os (GetStateOf i "/never") w) = (unknownAt t, None) /\
             rState (unknownAt t) = StateUnknown /\
             writes (trace (run Sim.os (GetStateOf i "/never") w)) = [] /\
             probes (trace (run Sim.os (GetStateOf i "/never") w)) = []).
Proof.
  intros i w.
  pose proof (retrieval_error_yields_unknown Sim.json Sim.World Sim.os i "/never" w
                (dbKey "/never") "key not found") as [Hload Hget].
  split.
  - assert (Hin : In (dbKey "/never", inr "key not found")
                     (gets (trace (run Sim.os (loadRecordOf i "/never") w))))
      by (vm_compute; left; reflexivity).
    split; [exact Hin | exact (Hload Hin)].
  - assert (Hin : In (dbKey "/never", inr "key not found")
                     (gets (trace (run Sim.os (GetStateOf i "/never") w))))
      by (vm_compute; left; reflexivity).
    split; [exact Hin | exact (Hget Hin)].
Defined.

(** ** Stored values that do not decode *)

Section Decoding.
Context `{Json}.

Ltac decode_failed :=
  match goal with
  | Hd : decode_error _ = Some _ |- _ =>
      unfold decode_error in Hd;
      repeat match goal with
             | Heq : Marshal _ = _ |- _ => rewrite Heq in Hd
             | Heq : Unmarshal _ _ = _ |- _ => rewrite Heq in Hd
             end;
      cbn in Hd
  end.

Ltac same_get :=
  match goal with
  | Hin : (_, inl _) = (_, inl _) |- _ => injection Hin as ? ?; subst
  end.

Lemma loadRecord_decode_error i path :
  all_runs (loadRecordOf i path)
    (fun tr res => forall key v e, In (key, inl v) (gets tr) ->
                   decode_error v = Some e -> snd res = Some e).
Proof.
  destruct i as [c | c];
    unfold loadRecordOf, Configurable.loadRecord, Basic.loadRecord,
      Configurable.formatDBKey, Basic.dbKeyFor;
    walk_runs; in_gets; same_get; decode_failed; cbn; congruence.
Qed.

Lemma GetState_decode_error i path :
  all_runs (GetStateOf i path)
    (fun tr res => forall key v e, In (key, inl v) (gets tr) ->
                   decode_error v = Some e ->
                   snd res = Some e /\ writes tr = [] /\ probes tr = []).
Proof.
  destruct i as [c | c];
    unfold GetStateOf, Configurable.GetState, Basic.GetState,
      Configurable.loadRecord, Basic.loadRecord,
      Configurable.saveRecord, Basic.saveRecord,
      Configurable.isPidAlive, Basic.isPidAlive,
      Configurable.formatDBKey, Basic.dbKeyFor;
    walk_runs; in_gets; same_get; decode_failed; cbn;
    first [ discriminate | repeat split; congruence ].
Qed.

End Decoding.

(** C10. When the store's Get succeeds but the value it returned does not
    pass through json.Marshal and json.Unmarshal into an InstanceRecord,
    loadRecord returns the codec's error (not a synthetic unknown record
    without error), and GetState returns that same error to its caller,
    without probing a process or writing to the store. *)
Theorem decode_error_is_propagated :
  forall (J : Json) (W : Type) (h : handler W) (i : Impl) (path : string) (w : W)
         (key : string) (v : value) (e : error),
    decode_error v = Some e ->
    (In (key, inl v) (gets (trace (run h (loadRecordOf i path) w))) ->
     snd (result (run h (loadRecordOf i path) w)) = Some e) /\
    (In (key, inl v) (gets (trace (run h (GetStateOf i path) w))) ->
     snd (result (run h (GetStateOf i path) w)) = Some e /\
     writes (trace (run h (GetStateOf i path) w)) = [] /\
     probes (trace (run h (GetStateOf i path) w)) = []).
Proof.
  intros J W h i path w key v e Hd. split; intros Hin.
  - exact (all_runs_run h _ _ w (loadRecord_decode_error i path) key v e Hin Hd).
  - exact (all_runs_run h _ _ w (GetState_decode_error i path) key v e Hin Hd).
Qed.

Lemma decode_error_is_propagated_witness :
  let i := withOptions Configurable.NewController in
  let w := Sim.withStored (dbKey "/inst") (Sim.SString "oops") (Sim.boot 1000) in
  let e := "json: cannot unmarshal string into Go value of type instancecontrol.InstanceRecord" in
  @decode_error Sim.json (Sim.SString "oops") = Some e /\
  (In (dbKey "/inst", inl (Sim.SString "oops"))
      (gets (trace (run Sim.os (loadRecordOf i "/inst") w))) /\
   snd (result (run Sim.os (loadRecordOf i "/inst") w)) = Some e) /\
  (In (dbKey "/inst", inl (Sim.SString "oops"))
      (gets (trace (run Sim.os (GetStateOf i "/inst") w))) /\
   snd (result (run Sim.os (GetStateOf i "/inst") w)) = Some e /\
   writes (trace (run Sim.os (GetStateOf i "/inst") w)) = [] /\
   probes (trace (run Sim.os (GetStateOf i "/inst") w)) = []).
Proof.
  intros i w e.
  assert (Hd : @decode_error Sim.json (Sim.SString "oops") = Some e) by reflexivity.
  pose proof (decode_error_is_propagated Sim.json Sim.World Sim.os i "/inst" w
                (dbKey "/inst") (Sim.SString "oops") e Hd) as [Hload Hget].
  split; [exact Hd |]. split.
  - assert (Hin : In (dbKey "/inst", inl (Sim.SString "oops"))
                     (gets (trace (run Sim.os (loadRecordOf i "/inst") w))))
      by (vm_compute; left; reflexivity).
    split; [exact Hin | exact (Hload Hin)].
  - assert (Hin : In (dbKey "/inst", inl (Sim.SString "oops"))
                     (gets (trace (run Sim.os (GetStateOf i "/inst") w))))
      by (vm_compute; left; reflexivity).
    split; [exact Hin | exact (Hget Hin)].
Defined.

(** ** Calls that leave the store and the process table alone *)

Section Quiet.
Context `{Json}.

Ltac walk_quiet :=
  repeat (cbn [always bind call_];
          match goal with
          | |- True => exact I
          | |- quiet _ => repeat split; reflexivity
          | |- forall _, _ => intros ?
          | |- _ /\ _ => split
          | |- always _ (if ?b then _ else _) => destruct b
          | |- always _ (match ?x with _ => _ end) => destruct x
          | |- always _ (bind (if ?b then _ else _) _) => destruct b
          | |- always _ (bind (match ?x with _ => _ end) _) => destruct x
          end).

Lemma loadRecord_quiet i path : always quiet (loadRecordOf i path).
Proof.
  destruct i as [c | c];
    unfold loadRecordOf, Configurable.loadRecord, Basic.loadRecord,
      Configurable.formatDBKey, Basic.dbKeyFor; walk_quiet.
Qed.

Lemma quiet_trace (tr : list call) :
  Forall quiet tr -> writes tr = [] /\ spawns tr = [] /\ lookup_failures tr = [].
Proof.
  induction 1 as [| c tr (Hw & Hs & Hl) _ (IHw & IHs & IHl)]; [repeat split; reflexivity |].
  rewrite writes_cons, spawns_cons, lookup_failures_cons, Hw, Hs, Hl.
  repeat split; assumption.
Qed.

Lemma loadRecord_trace_quiet {W} (h : handler W) i path w :
  writes (trace (run h (loadRecordOf i path) w)) = [] /\
  spawns (trace (run h (loadRecordOf i path) w)) = [] /\
  lookup_failures (trace (run h (loadRecordOf i path) w)) = [].
Proof. apply quiet_trace, always_run, loadRecord_quiet. Qed.

Lemma isPidAlive_trace_quiet {W} (h : handler W) i pid w :
  writes (trace (run h (isPidAliveOf i pid) w)) = [] /\
  spawns (trace (run h (isPidAliveOf i pid) w)) = [] /\
  lookup_failures (trace (run h (isPidAliveOf i pid) w)) = [].
Proof. apply quiet_trace, always_run, isPidAlive_quiet. Qed.

End Quiet.

(** C3. When the record Start loads has a nonzero pid and the liveness
    check reports that process alive, Start returns success at once: it
    launches no command and hands no record to the store, so the stored
    record and its pid stay as they were. *)
Theorem Start_is_noop_when_alive :
  forall (J : Json) (W : Type) (h : handler W) (i : Impl) (path : string)
         (cmd : list string) (w : W) (absPath : string) (rec : InstanceRecord),
    fst (h _ (Abs path) w) = inl absPath ->
    result (run h (loadRecordOf i absPath) (snd (h _ (Abs path) w))) = (rec, None) ->
    PID rec <> 0%Z ->
    result (run h (isPidAliveOf i (PID rec))
                (final (run h (loadRecordOf i absPath) (snd (h _ (Abs path) w))))) = true ->
    result (run h (StartOf i path cmd) w) = None /\
    writes (trace (run h (StartOf i path cmd) w)) = [] /\
    spawns (trace (run h (StartOf i path cmd) w)) = [] /\
    final (run h (StartOf i path cmd) w) =
    final (run h (isPidAliveOf i (PID rec))
               (final (run h (loadRecordOf i absPath) (snd (h _ (Abs path) w))))).
Proof.
  intros J W h i path cmd w absPath rec Habs Hload Hpid Halive.
  apply Z.eqb_neq in Hpid.
  pose proof (loadRecord_trace_quiet h i absPath (snd (h _ (Abs path) w)))
    as (Hlw & Hls & _).
  pose proof (isPidAlive_trace_quiet h i (PID rec)
                (final (run h (loadRecordOf i absPath) (snd (h _ (Abs path) w)))))
    as (Hpw & Hps & _).
  destruct i as [c | c];
    unfold StartOf, Configurable.Start, Basic.Start,
      Configurable.pidSetAndAlive, Basic.pidSetAndAlive;
    cbn [loadRecordOf isPidAliveOf] in *;
    rewrite run_bind, run_call; cbn [result final trace]; rewrite Habs;
    rewrite run_bind; cbn [result final trace]; rewrite Hload;
    rewrite run_bind; cbn [result final trace]; rewrite Hpid, Halive;
    cbn [run result final trace];
    rewrite !app_nil_r; cbn [app];
    (split; [reflexivity |]);
    split_trace; rewrite Hlw, Hls, Hpw, Hps;
    repeat split; reflexivity.
Qed.

Lemma Start_is_noop_when_alive_witness :
  let i := plain Basic.NewController in
  let rec := Sim.runningRecord 100 5 in
  let w := Sim.withStored (dbKey "/inst") (Sim.SRecord rec)
             (Sim.withProcess 100 (Sim.mkProc false false) (Sim.boot 1000)) in
  fst (Sim.os _ (Abs "/inst") w) = inl "/inst" /\
  result (run Sim.os (loadRecordOf i "/inst") (snd (Sim.os _ (Abs "/inst") w))) = (rec, None) /\
  PID rec <> 0%Z /\
  result (run Sim.os (isPidAliveOf i (PID rec))
            (final (run Sim.os (loadRecordOf i "/inst") (snd (Sim.os _ (Abs "/inst") w)))))
  = true /\
  result (run Sim.os (StartOf i "/inst" ["sh"]) w) = None /\
  writes (trace (run Sim.os (StartOf i "/inst" ["sh"]) w)) = [] /\
  spawns (trace (run Sim.os (StartOf i "/inst" ["sh"]) w)) = [].
Proof.
  intros i rec w.
  assert (Habs : fst (Sim.os _ (Abs "/inst") w) = inl "/inst") by reflexivity.
  assert (Hload : result (run Sim.os (loadRecordOf i "/inst") (snd (Sim.os _ (Abs "/inst") w)))
                  = (rec, None)) by (vm_compute; reflexivity).
  assert (Hpid : PID rec <> 0%Z) by (cbn; lia).
  assert (Halive : result (run Sim.os (isPidAliveOf i (PID rec))
                             (final (run Sim.os (loadRecordOf i "/inst")
                                       (snd (Sim.os _ (Abs "/inst") w))))) = true)
    by (vm_compute; reflexivity).
  pose proof (Start_is_noop_when_alive Sim.json Sim.World Sim.os i "/inst" ["sh"] w
                "/inst" rec Habs Hload Hpid Halive) as (Hres & Hw & Hs & _).
  split; [exact Habs |]. split; [exact Hload |]. split; [exact Hpid |].
  split; [exact Halive |]. split; [exact Hres |]. split; [exact Hw | exact Hs].
Defined.

(** ** Saving a record *)

Section Saving.
Context `{Json}.

Lemma saveRecord_run {W} (h : handler W) i p w0 absPath r w :
  abs_stable h ->
  fst (h _ (Abs p) w0) = inl absPath ->
  let wk := keyWorld h i absPath w in
  let t := fst (h _ Now wk) in
  let w1 := snd (h _ Now wk) in
  let o := run h (saveRecordOf i absPath r) w in
  result o = fst (h _ (DbSet (dbKey absPath) (setUpdatedAt t r)) w1) /\
  final o = snd (h _ (DbSet (dbKey absPath) (setUpdatedAt t r)) w1) /\
  writes (trace o) = [(dbKey absPath, setUpdatedAt t r, result o)] /\
  spawns (trace o) = [] /\
  lookup_failures (trace o) = [].
Proof.
  intros Hstable Habs. pose proof (Hstable p absPath w0 Habs w) as Hagain.
  destruct i as [c | c]; unfold saveRecordOf, Configurable.saveRecord, Basic.saveRecord,
    Configurable.formatDBKey, Basic.dbKeyFor, keyWorld.
  - destruct (Configurable.useAbsPaths c); cbn; [rewrite Hagain; cbn |];
      repeat split; reflexivity.
  - cbn. rewrite Hagain. cbn. repeat split; reflexivity.
Qed.

Lemma clock_run {W A} (h : handler W) (clk : W -> Z) (p : prog A) w :
  ClockLaws h clk -> (clk w <= clk (final (run h p w)))%Z.
Proof.
  intros Hc. revert w. induction p as [a | X e k IH]; intros w; cbn.
  - lia.
  - pose proof (clk_mono h clk Hc X e w). specialize (IH (fst (h X e w)) (snd (h X e w))). lia.
Qed.

Lemma keyWorld_clock {W} (h : handler W) (clk : W -> Z) i absPath w :
  ClockLaws h clk -> (clk w <= clk (keyWorld h i absPath w))%Z.
Proof.
  intros Hc. pose proof (clk_mono h clk Hc _ (Abs absPath) w).
  destruct i as [c | c]; unfold keyWorld; [destruct (Configurable.useAbsPaths c) |]; lia.
Qed.

End Saving.

(** C1. When GetState loads a record with a nonzero pid and the liveness
    check reports that process no longer alive, it returns the record with
    state stopped, pid 0 and updated_at set to the current clock reading,
    and before returning it hands that corrected record (stamped once more
    by saveRecord) to the store's Set under the instance's key; when that
    Set succeeds the store holds the corrected record. *)
Theorem GetState_self_heals :
  forall (J : Json) (W : Type) (h : handler W) (i : Impl) (path : string) (w : W)
         (absPath : string) (rec : InstanceRecord),
    abs_stable h ->
    fst (h _ (Abs path) w) = inl absPath ->
    result (run h (loadRecordOf i absPath) (snd (h _ (Abs path) w))) = (rec, None) ->
    PID rec <> 0%Z ->
    result (run h (isPidAliveOf i (PID rec))
                (final (run h (loadRecordOf i absPath) (snd (h _ (Abs path) w))))) = false ->
    let probed := final (run h (isPidAliveOf i (PID rec))
                           (final (run h (loadRecordOf i absPath) (snd (h _ (Abs path) w))))) in
    let t := fst (h _ Now probed) in
    let healed := setUpdatedAt t (setPID 0 (setState StateStopped rec)) in
    let t' := fst (h _ Now (keyWorld h i absPath (snd (h _ Now probed)))) in
    let o := run h (GetStateOf i path) w in
    result o = (healed, None) /\
    rState healed = StateStopped /\ PID healed = 0%Z /\ UpdatedAt healed = t /\
    (exists res, writes (trace o) = [(dbKey absPath, setUpdatedAt t' healed, res)] /\
       forall content, StoreLaws h content -> res = None ->
         content (final o) (dbKey absPath) = Some (box (setUpdatedAt t' healed))) /\
    (forall clk, ClockLaws h clk -> (clk w <= t)%Z /\ (t <= t')%Z).
Proof.
  intros J W h i path w absPath rec Hstable Habs Hload Hpid Hdead probed t healed t' o.
  apply Z.eqb_neq in Hpid.
  pose proof (loadRecord_trace_quiet h i absPath (snd (h _ (Abs path) w))) as (Hlw & _).
  pose proof (isPidAlive_trace_quiet h i (PID rec)
                (final (run h (loadRecordOf i absPath) (snd (h _ (Abs path) w)))))
    as (Hpw & _).
  pose proof (saveRecord_run h i path w absPath healed (snd (h _ Now probed)) Hstable Habs)
    as (Hsres & Hsfin & Hsw & _ & _).
  cbn zeta in Hsres, Hsfin, Hsw. fold t' in Hsres, Hsfin, Hsw.
  assert (Hrun : result o = (healed, None) /\
                 writes (trace o) =
                   [(dbKey absPath, setUpdatedAt t' healed,
                     result (run h (saveRecordOf i absPath healed) (snd (h _ Now probed))))] /\
                 final o = final (run h (saveRecordOf i absPath healed) (snd (h _ Now probed)))).
  { subst o. destruct i as [c | c];
      unfold GetStateOf, Configurable.GetState, Basic.GetState;
      cbn [loadRecordOf isPidAliveOf saveRecordOf] in *;
      rewrite run_bind, run_call; cbn [result final trace]; rewrite Habs;
      rewrite run_bind; cbn [result final trace]; rewrite Hload;
      rewrite run_bind; cbn [result final trace]; rewrite Hpid;
      rewrite run_bind; cbn [result final trace]; rewrite Hdead;
      cbn [run result final trace negb];
      rewrite run_bind, run_call; cbn [result final trace];
      rewrite run_bind; cbn [run result final trace];
      fold probed; fold t; fold healed;
      rewrite !app_nil_r; cbn [app];
      split_trace; rewrite Hlw, Hpw, Hsw; cbn [app];
      repeat split; reflexivity. }
  destruct Hrun as (Hres & Hwrites & Hfinal).
  split; [exact Hres |]. repeat split.
  - eexists. split; [exact Hwrites |].
    intros content Hstore Hok. rewrite Hfinal, Hsfin.
    apply (store_set h content Hstore). rewrite <- Hsres. exact Hok.
  - pose proof (clk_mono h clk H _ (Abs path) w).
    pose proof (clock_run h clk (loadRecordOf i absPath) (snd (h _ (Abs path) w)) H).
    pose proof (clock_run h clk (isPidAliveOf i (PID rec))
                  (final (run h (loadRecordOf i absPath) (snd (h _ (Abs path) w)))) H).
    pose proof (clk_now h clk H probed) as [Hlo _]. subst t healed t' o probed. lia.
  - pose proof (clk_now h clk H probed) as [_ Hhi].
    pose proof (keyWorld_clock h clk i absPath (snd (h _ Now probed)) H).
    pose proof (clk_now h clk H (keyWorld h i absPath (snd (h _ Now probed)))) as [Hlo _].
    subst t healed t' o probed. lia.
Qed.

(** ** The simulated environment meets the assumptions *)

Lemma Sim_abs_stable : abs_stable Sim.os.
Proof.
  intros p q w Hq w'. cbn in Hq |- *.
  destruct (String.prefix "/" p) eqn:Hp.
  - injection Hq as <-. rewrite Hp. reflexivity.
  - destruct (Sim.getwdFails w); [discriminate Hq |].
    injection Hq as <-. reflexivity.
Qed.

Lemma Sim_deliver_clock pid sig w : Sim.clock (snd (Sim.deliver pid sig w)) = Sim.clock w.
Proof.
  unfold Sim.deliver. destruct (Sim.procs w !! pid) as [p |]; [| reflexivity].
  destruct (Sim.foreign p); [reflexivity |].
  destruct sig; [reflexivity | destruct (Sim.ignoresTERM p); reflexivity | reflexivity].
Qed.

Lemma Sim_deliver_content pid sig w :
  Sim.content (snd (Sim.deliver pid sig w)) = Sim.content w.
Proof.
  unfold Sim.deliver. destruct (Sim.procs w !! pid) as [p |]; [| reflexivity].
  destruct (Sim.foreign p); [reflexivity |].
  destruct sig; [reflexivity | destruct (Sim.ignoresTERM p); reflexivity | reflexivity].
Qed.

Lemma Sim_clock_laws : ClockLaws Sim.os Sim.clock.
Proof.
  split.
  - intros X e w. destruct e; cbn;
      repeat match goal with
             | |- context [if ?b then _ else _] => destruct b; cbn
             | |- context [match ?x with _ => _ end] => destruct x eqn:?; cbn
             end; try lia.
    + rewrite Sim_deliver_clock. lia.
    + match goal with
      | Heq : Sim.deliver ?p ?s ?w = _ |- _ =>
          pose proof (Sim_deliver_clock p s w) as Hd; rewrite Heq in Hd; cbn in Hd; lia
      end.
  - intros w. cbn. lia.
  - intros d w. cbn. lia.
Qed.

Lemma Sim_store_laws : StoreLaws Sim.os Sim.content.
Proof.
  split.
  - intros k w v. unfold Sim.content. cbn.
    destruct (Sim.dbDown w); [discriminate |]. intros ->. reflexivity.
  - intros k r w. unfold Sim.content. cbn.
    destruct (Sim.dbDown w) eqn:Hd; [discriminate |]. intros _. cbn.
    rewrite Hd. apply lookup_insert_eq.
  - intros X e w Hw. destruct e; try discriminate Hw; cbn;
      repeat match goal with
             | |- context [if ?b then _ else _] => destruct b; cbn
             | |- context [match Sim.db _ !! _ with _ => _ end] =>
                 destruct (Sim.db w !! key); cbn
             end; try reflexivity.
    + apply Sim_deliver_content.
    + pose proof (Sim_deliver_content p sig w) as Hd.
      destruct (Sim.deliver p sig w) as [r w'']. exact Hd.
Qed.

Lemma GetState_self_heals_witness :
  let i := withOptions Configurable.NewController in
  let rec := Sim.runningRecord 100 5 in
  let w := Sim.withStored (dbKey "/inst") (Sim.SRecord rec) (Sim.boot 1000) in
  abs_stable Sim.os /\
  fst (Sim.os _ (Abs "/inst") w) = inl "/inst" /\
  result (run Sim.os (loadRecordOf i "/inst") (snd (Sim.os _ (Abs "/inst") w))) = (rec, None) /\
  PID rec <> 0%Z /\
  result (run Sim.os (isPidAliveOf i (PID rec))
            (final (run Sim.os (loadRecordOf i "/inst") (snd (Sim.os _ (Abs "/inst") w)))))
  = false /\
  result (run Sim.os (GetStateOf i "/inst") w) = (mkRecord StateStopped 0 5 0 1000 "", None) /\
  writes (trace (run Sim.os (GetStateOf i "/inst") w)) =
    [(dbKey "/inst", mkRecord StateStopped 0 5 0 1001 "", None)].
Proof.
  intros i rec w.
  assert (Habs : fst (Sim.os _ (Abs "/inst") w) = inl "/inst") by reflexivity.
  assert (Hload : result (run Sim.os (loadRecordOf i "/inst") (snd (Sim.os _ (Abs "/inst") w)))
                  = (rec, None)) by (vm_compute; reflexivity).
  assert (Hpid : PID rec <> 0%Z) by (cbn; lia).
  assert (Hdead : result (run Sim.os (isPidAliveOf i (PID rec))
                            (final (run Sim.os (loadRecordOf i "/inst")
                                      (snd (Sim.os _ (Abs "/inst") w))))) = false)
    by (vm_compute; reflexivity).
  pose proof (GetState_self_heals Sim.json Sim.World Sim.os i "/inst" w "/inst" rec
                Sim_abs_stable Habs Hload Hpid Hdead) as (Hres & _ & _ & _ & _ & _).
  split; [exact Sim_abs_stable |].
  split; [exact Habs |]. split; [exact Hload |]. split; [exact Hpid |].
  split; [exact Hdead |]. split; [exact Hres |].
  vm_compute. reflexivity.
Defined.

(** ** Saving and loading again *)

Section RoundTrip.
Context `{Json}.
Context {W : Type} (h : handler W) (clk : W -> Z) (content : W -> string -> option value).
Hypothesis Hclock : ClockLaws h clk.
Hypothesis Hstore : StoreLaws h content.

(** What [loadRecord] returns once the key is formatted, when the store
    holds the boxed record [r] under it. *)
Lemma load_stored_record key r w :
  content w key = Some (box r) ->
  json_roundtrips r ->
  fst (h _ (DbGet key) w) = inl (box r) /\
  match Marshal (box r) with
  | inl b => Unmarshal b zeroRecord = (r, None)
  | inr _ => False
  end.
Proof.
  intros Hc (b & Hm & Hu). split; [apply (store_get h content Hstore), Hc |].
  rewrite Hm. exact Hu.
Qed.

(** The loaded record is the saved one with the stamp [t] that
    [saveRecord] took from the clock. *)
Lemma save_then_load i path r w :
  let saved := run h (saveRecordOf i path r) w in
  result saved = None ->
  (forall k r' a, In (k, r', a) (writes (trace saved)) -> json_roundtrips r') ->
  fst (h _ (Abs path) (final saved)) = fst (h _ (Abs path) w) ->
  exists t, result (run h (loadRecordOf i path) (final saved)) = (setUpdatedAt t r, None) /\
            (clk w <= t <= clk (final saved))%Z.
Proof.
  intros saved Hsaved Hjson Hsame. subst saved.
  destruct i as [c | c];
    unfold saveRecordOf, loadRecordOf, Configurable.saveRecord, Configurable.loadRecord,
      Basic.saveRecord, Basic.loadRecord, Configurable.formatDBKey, Basic.dbKeyFor in *.
  - destruct (Configurable.useAbsPaths c).
    + cbn in Hsaved, Hsame, Hjson |- *.
      destruct (fst (h _ (Abs path) w)) as [abs | e] eqn:Ha; cbn in Hsaved, Hsame, Hjson |- *;
        [| discriminate Hsaved].
      rewrite Hsame. cbn.
      set (w1 := snd (h _ (Abs path) w)) in *.
      set (t := fst (h _ Now w1)) in *. set (w2 := snd (h _ Now w1)) in *.
      set (w3 := snd (h _ (DbSet (dbKey abs) (setUpdatedAt t r)) w2)) in *.
      assert (Hc : content (snd (h _ (Abs path) w3)) (dbKey abs) = Some (box (setUpdatedAt t r))).
      { rewrite (store_frame h content Hstore _ (Abs path) w3 eq_refl).
        apply (store_set h content Hstore). exact Hsaved. }
      assert (Hrt : json_roundtrips (setUpdatedAt t r))
        by (eapply Hjson; left; reflexivity).
      destruct (load_stored_record _ _ _ Hc Hrt) as [Hget Hdec].
      rewrite Hget. destruct (Marshal (box (setUpdatedAt t r))) as [b | e]; [| contradiction].
      rewrite Hdec. exists t. split; [reflexivity |].
      pose proof (clk_mono h clk Hclock _ (Abs path) w).
      pose proof (clk_now h clk Hclock w1) as [Hlo Hhi].
      pose proof (clk_mono h clk Hclock _ (DbSet (dbKey abs) (setUpdatedAt t r)) w2).
      subst t w1 w2 w3. lia.
    + cbn in Hsaved, Hjson |- *.
      set (t := fst (h _ Now w)) in *. set (w2 := snd (h _ Now w)) in *.
      assert (Hc : content (snd (h _ (DbSet (dbKey path) (setUpdatedAt t r)) w2)) (dbKey path)
                   = Some (box (setUpdatedAt t r)))
        by (apply (store_set h content Hstore); exact Hsaved).
      assert (Hrt : json_roundtrips (setUpdatedAt t r))
        by (eapply Hjson; left; reflexivity).
      destruct (load_stored_record _ _ _ Hc Hrt) as [Hget Hdec].
      rewrite Hget. destruct (Marshal (box (setUpdatedAt t r))) as [b | e]; [| contradiction].
      rewrite Hdec. exists t. split; [reflexivity |].
      pose proof (clk_now h clk Hclock w) as [Hlo Hhi].
      pose proof (clk_mono h clk Hclock _ (DbSet (dbKey path) (setUpdatedAt t r)) w2).
      subst t w2. lia.
  - cbn in Hsaved, Hsame, Hjson |- *.
    destruct (fst (h _ (Abs path) w)) as [abs | e] eqn:Ha; cbn in Hsaved, Hsame, Hjson |- *;
      [| discriminate Hsaved].
    rewrite Hsame. cbn.
    set (w1 := snd (h _ (Abs path) w)) in *.
    set (t := fst (h _ Now w1)) in *. set (w2 := snd (h _ Now w1)) in *.
    set (w3 := snd (h _ (DbSet (dbKey abs) (setUpdatedAt t r)) w2)) in *.
    assert (Hc : content (snd (h _ (Abs path) w3)) (dbKey abs) = Some (box (setUpdatedAt t r))).
    { rewrite (store_frame h content Hstore _ (Abs path) w3 eq_refl).
      apply (store_set h content Hstore). exact Hsaved. }
    assert (Hrt : json_roundtrips (setUpdatedAt t r))
      by (eapply Hjson; left; reflexivity).
    destruct (load_stored_record _ _ _ Hc Hrt) as [Hget Hdec].
    rewrite Hget. destruct (Marshal (box (setUpdatedAt t r))) as [b | e]; [| contradiction].
    rewrite Hdec. exists t. split; [reflexivity |].
    pose proof (clk_mono h clk Hclock _ (Abs path) w).
    pose proof (clk_now h clk Hclock w1) as [Hlo Hhi].
    pose proof (clk_mono h clk Hclock _ (DbSet (dbKey abs) (setUpdatedAt t r)) w2).
    subst t w1 w2 w3. lia.
Qed.

End RoundTrip.

(** C8 (as the code has it). With a clock that does not run backwards:
    when the save succeeds on a store that keeps what it is given, the
    codec returns the record that was handed to Set as stored, and the
    path normalizes at the load as it did at the save, saving a record
    (valid or not) and then loading it under the same key
    yields a record with the same state, pid, started_at, stopped_at and
    last_error.  Its updated_at is the reading that saveRecord took from
    the clock, between the clock at the start and at the end of the save,
    whatever the record carried before: so it is not earlier than the
    updated_at the record had before the save whenever that one was not
    later than the clock at the start of the save. *)
Theorem save_then_load_round_trip :
  forall (J : Json) (W : Type) (h : handler W) (clk : W -> Z)
         (content : W -> string -> option value)
         (i : Impl) (path : string) (r : InstanceRecord) (w : W),
    ClockLaws h clk ->
    StoreLaws h content ->
    let saved := run h (saveRecordOf i path r) w in
    result saved = None ->
    (forall k r' a, In (k, r', a) (writes (trace saved)) -> json_roundtrips r') ->
    fst (h _ (Abs path) (final saved)) = fst (h _ (Abs path) w) ->
    exists loaded,
      result (run h (loadRecordOf i path) (final saved)) = (loaded, None) /\
      rState loaded = rState r /\ PID loaded = PID r /\
      StartedAt loaded = StartedAt r /\ StoppedAt loaded = StoppedAt r /\
      LastError loaded = LastError r /\
      (clk w <= UpdatedAt loaded <= clk (final saved))%Z /\
      ((UpdatedAt r <= clk w)%Z -> (UpdatedAt r <= UpdatedAt loaded)%Z).
Proof.
  intros J W h clk content i path r w Hclock Hstore saved Hsaved Hjson Hsame.
  destruct (save_then_load h clk content Hclock Hstore i path r w Hsaved Hjson Hsame)
    as (t & Hload & Ht).
  exists (setUpdatedAt t r). split; [exact Hload |]. subst saved.
  cbn [UpdatedAt setUpdatedAt rState PID StartedAt StoppedAt LastError].
  repeat split; try reflexivity; lia.
Qed.

Lemma save_then_load_round_trip_witness :
  let i := withOptions (Configurable.mkController (10 * Second) [] false) in
  let r := mkRecord StateRunning 123 900 0 950 "" in
  let w := Sim.boot 1000 in
  let saved := run Sim.os (saveRecordOf i "inst1" r) w in
  valid_record r /\
  result saved = None /\
  exists loaded,
    result (run Sim.os (loadRecordOf i "inst1") (final saved)) = (loaded, None) /\
    rState loaded = rState r /\ PID loaded = PID r /\
    StartedAt loaded = StartedAt r /\ StoppedAt loaded = StoppedAt r /\
    LastError loaded = LastError r /\
    (Sim.clock w <= UpdatedAt loaded <= Sim.clock (final saved))%Z /\
    ((UpdatedAt r <= Sim.clock w)%Z -> (UpdatedAt r <= UpdatedAt loaded)%Z).
Proof.
  intros i r w saved.
  assert (Hvalid : valid_record r).
  { split; [right; right; left; reflexivity |].
    split; [intros _; reflexivity |].
    intros Hne; exfalso; apply Hne; reflexivity. }
  assert (Hsaved : result saved = None) by (vm_compute; reflexivity).
  assert (Hjson : forall k r' a, In (k, r', a) (writes (trace saved)) ->
                                 @json_roundtrips Sim.json r')
    by (intros k r' a _; eexists; split; reflexivity).
  assert (Hsame : fst (Sim.os _ (Abs "inst1") (final saved)) = fst (Sim.os _ (Abs "inst1") w))
    by (vm_compute; reflexivity).
  split; [exact Hvalid |]. split; [exact Hsaved |].
  exact (save_then_load_round_trip Sim.json Sim.World Sim.os Sim.clock Sim.content
           i "inst1" r w Sim_clock_laws Sim_store_laws Hsaved Hjson Hsame).
Defined.

(** C8 as stated does not hold: saveRecord overwrites updated_at with the
    reading of the clock and never compares it with the value the record
    carries.  A valid running record whose updated_at (5000) lies ahead of
    the clock (1000) is saved and loaded without error by either version,
    and comes back with the earlier updated_at of the save. *)
Lemma save_then_load_future_dated :
  valid_record (mkRecord StateRunning 123 900 0 5000 "") /\
  (result (run Sim.os (saveRecordOf (withOptions Configurable.NewController) "/inst"
                         (mkRecord StateRunning 123 900 0 5000 "")) (Sim.boot 1000))
   = None /\
   result (run Sim.os (loadRecordOf (withOptions Configurable.NewController) "/inst")
             (final (run Sim.os (saveRecordOf (withOptions Configurable.NewController) "/inst"
                                   (mkRecord StateRunning 123 900 0 5000 ""))
                       (Sim.boot 1000))))
   = (mkRecord StateRunning 123 900 0 1000 "", None) /\
   ~ save_load_round_trip Sim.os (withOptions Configurable.NewController) "/inst"
       (mkRecord StateRunning 123 900 0 5000 "") (Sim.boot 1000)) /\
  (result (run Sim.os (saveRecordOf (plain Basic.NewController) "/inst"
                         (mkRecord StateRunning 123 900 0 5000 "")) (Sim.boot 1000))
   = None /\
   result (run Sim.os (loadRecordOf (plain Basic.NewController) "/inst")
             (final (run Sim.os (saveRecordOf (plain Basic.NewController) "/inst"
                                   (mkRecord StateRunning 123 900 0 5000 ""))
                       (Sim.boot 1000))))
   = (mkRecord StateRunning 123 900 0 1000 "", None) /\
   ~ save_load_round_trip Sim.os (plain Basic.NewController) "/inst"
       (mkRecord StateRunning 123 900 0 5000 "") (Sim.boot 1000)).
Proof.
  split.
  - split; [right; right; left; reflexivity |].
    split; [intros _; reflexivity |].
    intros Hne; exfalso; apply Hne; reflexivity.
  - split; (split; [vm_compute; reflexivity |]); (split; [vm_compute; reflexivity |]);
      intros (_ & _ & _ & _ & _ & Hle); vm_compute in Hle; apply Hle; reflexivity.
Qed.

(** ** Store failures during Start *)

Section StartFailures.
Context `{Json}.

Ltac first_write :=
  match goal with
  | Hh : head (writes _) = Some _ |- _ =>
      cbn in Hh; try discriminate Hh; injection Hh as ? ? ?; subst
  end.

Ltac in_spawns :=
  split; intros ? ? Hin; cbn in Hin;
  repeat (destruct Hin as [Hin | Hin]); try contradiction; try discriminate Hin;
  try (injection Hin as ? ?; subst); reflexivity.

Lemma Configurable_Start_first_write_fails c path cmd :
  all_runs (Configurable.Start c path cmd)
    (fun tr res => forall key r e, head (writes tr) = Some (key, r, Some e) ->
                   res = Some e /\ spawns tr = [] /\ rState r = StateStarting).
Proof.
  unfold Configurable.Start, Configurable.pidSetAndAlive, Configurable.loadRecord,
    Configurable.saveRecord, Configurable.isPidAlive, Configurable.formatDBKey.
  walk_runs; first_write; repeat split; reflexivity.
Qed.

Lemma Start_spawn_decides i path cmd :
  all_runs (StartOf i path cmd)
    (fun tr res => (forall cmd' pid, In (cmd', inl pid) (spawns tr) -> res = None) /\
                   (forall cmd' e, In (cmd', inr e) (spawns tr) -> res = Some e)).
Proof.
  destruct i as [c | c];
    unfold StartOf, Configurable.Start, Configurable.pidSetAndAlive, Configurable.loadRecord,
      Configurable.saveRecord, Configurable.isPidAlive, Configurable.formatDBKey,
      Basic.Start, Basic.pidSetAndAlive, Basic.loadRecord,
      Basic.saveRecord, Basic.isPidAlive, Basic.dbKeyFor;
    walk_runs; in_spawns.
Qed.

End StartFailures.

(** C7. In the version with options a failed Set of the starting record
    makes Start return that error without launching anything, and in both
    versions the answer of Start after the launch attempt is decided by the
    launch alone, whatever the later Sets answer.  In the basic version
    the failed Set of the starting record is ignored: with the store
    unavailable, Start launches the command and returns success. *)
Theorem Start_and_failed_starting_write :
  (forall (J : Json) (W : Type) (h : handler W) (c : Configurable.Controller)
          (path : string) (cmd : list string) (w : W)
          (key : string) (r : InstanceRecord) (e : error),
     head (writes (trace (run h (Configurable.Start c path cmd) w))) = Some (key, r, Some e) ->
     result (run h (Configurable.Start c path cmd) w) = Some e /\
     spawns (trace (run h (Configurable.Start c path cmd) w)) = [] /\
     rState r = StateStarting) /\
  (forall (J : Json) (W : Type) (h : handler W) (i : Impl)
          (path : string) (cmd : list string) (w : W),
     (forall cmd' pid, In (cmd', inl pid) (spawns (trace (run h (StartOf i path cmd) w))) ->
                       result (run h (StartOf i path cmd) w) = None) /\
     (forall cmd' e, In (cmd', inr e) (spawns (trace (run h (StartOf i path cmd) w))) ->
                     result (run h (StartOf i path cmd) w) = Some e)) /\
  (let o := run Sim.os (Basic.Start Basic.NewController "/inst" ["sh"])
                (Sim.withStoreDown (Sim.boot 1000)) in
   head (writes (trace o)) =
     Some (dbKey "/inst", mkRecord StateStarting 0 0 0 1001 "", Some "store unavailable") /\
   spawns (trace o) = [(mkCmd ["sh"] "/inst" (Some 3%Z) (Some 3%Z), inl 100%Z)] /\
   result o = None).
Proof.
  split; [| split].
  - intros J W h c path cmd w key r e Hfirst.
    exact (all_runs_run h _ _ w (Configurable_Start_first_write_fails c path cmd) key r e Hfirst).
  - intros J W h i path cmd w.
    exact (all_runs_run h _ _ w (Start_spawn_decides i path cmd)).
  - vm_compute. repeat split; reflexivity.
Qed.

Lemma Start_and_failed_starting_write_witness :
  let c := Configurable.NewController in
  let w := Sim.withStoreDown (Sim.boot 1000) in
  let starting := mkRecord StateStarting 0 0 0 1001 "" in
  head (writes (trace (run Sim.os (Configurable.Start c "/inst" ["sh"]) w)))
    = Some (dbKey "/inst", starting, Some "store unavailable") /\
  result (run Sim.os (Configurable.Start c "/inst" ["sh"]) w) = Some "store unavailable" /\
  spawns (trace (run Sim.os (Configurable.Start c "/inst" ["sh"]) w)) = [] /\
  rState starting = StateStarting.
Proof.
  intros c w starting.
  assert (Hfirst : head (writes (trace (run Sim.os (Configurable.Start c "/inst" ["sh"]) w)))
                   = Some (dbKey "/inst", starting, Some "store unavailable"))
    by (vm_compute; reflexivity).
  split; [exact Hfirst |].
  exact (proj1 Start_and_failed_starting_write Sim.json Sim.World Sim.os c "/inst" ["sh"] w
           (dbKey "/inst") starting "store unavailable" Hfirst).
Defined.

(** ** Stop *)

Section Stopping.
Context `{Json}.
Context {W : Type} (h : handler W) (clk : W -> Z).
Hypothesis Hstable : abs_stable h.
Hypothesis Hclock : ClockLaws h clk.

Lemma pollInterval_pos : (0 < pollInterval)%Z.
Proof. reflexivity. Qed.

(** One step of the loop, as [run] sees it. *)
Lemma stopLoop_unfold i fuel absPath pid proc deadline :
  stopLoopOf i (S fuel) absPath pid proc deadline =
  bind (call_ Now) (fun now =>
    if Before now deadline then
      bind (isPidAliveOf i pid) (fun alive =>
        if negb alive then
          bind (call_ Now) (fun stopped =>
            bind (saveRecordOf i absPath
                    (setStoppedAt stopped (setState StateStopped zeroRecord)))
                 (fun _ => Ret (Some None)))
        else
          bind (call_ (Sleep pollInterval))
               (fun _ => stopLoopOf i fuel absPath pid proc deadline))
    else
      bind (call_ (ProcSignal proc SIGKILL)) (fun _ =>
        bind (call_ Now) (fun stopped =>
          bind (saveRecordOf i absPath
                  (setStoppedAt stopped (setState StateStopped zeroRecord)))
               (fun _ => Ret (Some None))))).
Proof. destruct i; reflexivity. Qed.

(** A quiet prefix does not change how [Stop] ends. *)
Lemma stop_done_bind {A} (m : prog A) (f : A -> prog (option (option error))) w absPath :
  Forall quiet (trace (run h m w)) ->
  stop_done absPath (run h (f (result (run h m w))) (final (run h m w))) ->
  stop_done absPath (run h (bind m f) w).
Proof.
  intros Hq Hd. apply quiet_trace in Hq. destruct Hq as (Hw & _ & Hl).
  unfold stop_done in *. rewrite run_bind. cbn [result trace].
  rewrite writes_app, lookup_failures_app, Hw, Hl. exact Hd.
Qed.

Lemma quiet_call {X} (e : event X) w :
  (forall x, quiet (Call e x)) -> Forall quiet (trace (run h (call_ e) w)).
Proof. intros Hq. rewrite run_call. repeat constructor; apply Hq. Qed.

(** Saving the stopped record at the end of [Stop]. *)
Lemma save_stopped_run i p w0 absPath stopped w :
  fst (h _ (Abs p) w0) = inl absPath ->
  stop_done absPath
    (run h (bind (saveRecordOf i absPath
                    (setStoppedAt stopped (setState StateStopped zeroRecord)))
                 (fun _ => Ret (Some None))) w).
Proof.
  intros Habs.
  pose proof (saveRecord_run h i p w0 absPath
                (setStoppedAt stopped (setState StateStopped zeroRecord)) w Hstable Habs)
    as (_ & _ & Hw & _ & Hl).
  cbn zeta in Hw, Hl. unfold stop_done.
  rewrite run_bind. cbn [run result final trace]. rewrite app_nil_r, Hl.
  exists None. split; [reflexivity |]. split; [reflexivity |].
  eexists. eexists. eexists. exact Hw.
Qed.

Lemma stopLoop_run i p w0 absPath pid proc deadline :
  fst (h _ (Abs p) w0) = inl absPath ->
  forall fuel w,
    (1 <= fuel)%nat ->
    (deadline - clk w <= (Z.of_nat fuel - 1) * pollInterval)%Z ->
    stop_done absPath (run h (stopLoopOf i fuel absPath pid proc deadline) w).
Proof.
  intros Habs. induction fuel as [| fuel IH]; intros w Hfuel Hdeadline; [lia |].
  rewrite stopLoop_unfold.
  apply stop_done_bind; [apply quiet_call; intros; repeat split; reflexivity |].
  rewrite run_call. cbn [result final].
  pose proof (clk_now h clk Hclock w) as [Hnow_lo Hnow_hi].
  set (now := fst (h _ Now w)) in *. set (w1 := snd (h _ Now w)) in *.
  destruct (Before now deadline) eqn:Hbefore.
  - apply stop_done_bind; [apply always_run, isPidAlive_quiet |].
    pose proof (clock_run h clk (isPidAliveOf i pid) w1 Hclock) as Hprobe_clk.
    set (w2 := final (run h (isPidAliveOf i pid) w1)) in *.
    destruct (result (run h (isPidAliveOf i pid) w1)); cbn [negb].
    + apply stop_done_bind; [apply quiet_call; intros; repeat split; reflexivity |].
      rewrite run_call. cbn [result final].
      pose proof (clk_sleep h clk Hclock pollInterval w2) as Hsleep.
      set (w3 := snd (h _ (Sleep pollInterval) w2)) in *.
      apply Z.ltb_lt in Hbefore.
      assert (Hfuel' : (1 <= fuel)%nat).
      { destruct fuel as [| fuel']; [| lia]. cbn in Hdeadline. lia. }
      apply IH; [exact Hfuel' |]. pose proof pollInterval_pos. nia.
    + apply stop_done_bind; [apply quiet_call; intros; repeat split; reflexivity |].
      apply (save_stopped_run i p w0), Habs.
  - apply stop_done_bind; [apply quiet_call; intros; repeat split; reflexivity |].
    apply stop_done_bind; [apply quiet_call; intros; repeat split; reflexivity |].
    apply (save_stopped_run i p w0), Habs.
Qed.

Lemma lookup_failed_run i p w0 absPath pid e
    (f : Process + error -> prog (option (option error))) w :
  fst (h _ (Abs p) w0) = inl absPath ->
  fst (h _ (FindProcess pid) w) = inr e ->
  f (inr e) = bind (saveRecordOf i absPath (setLastError e (setState StateFailed zeroRecord)))
                   (fun _ => Ret (Some (Some e))) ->
  stop_done absPath (run h (bind (call_ (FindProcess pid)) f) w).
Proof.
  intros Habs Hfind Hf.
  pose proof (saveRecord_run h i p w0 absPath
                (setLastError e (setState StateFailed zeroRecord))
                (snd (h _ (FindProcess pid) w)) Hstable Habs)
    as (_ & _ & Hw & _ & Hl).
  cbn zeta in Hw, Hl. unfold stop_done.
  rewrite run_bind, run_call. cbn [result final trace]. rewrite Hfind, Hf.
  rewrite run_bind. cbn [run result final trace]. rewrite app_nil_r.
  split_trace. rewrite Hl, Hw. cbn [app].
  exists (Some e). split; [reflexivity |]. split; [reflexivity |].
  split; [reflexivity |]. eexists. eexists. reflexivity.
Qed.

(** From the lookup of the process handle to the end of [Stop]. *)
Lemma stop_signal_run i p w0 absPath pid fuel w :
  fst (h _ (Abs p) w0) = inl absPath ->
  (1 <= fuel)%nat ->
  (gracePeriodOf i <= (Z.of_nat fuel - 1) * pollInterval)%Z ->
  stop_done absPath
    (run h (bind (call_ (FindProcess pid)) (fun f =>
              match f with
              | inr e =>
                  bind (saveRecordOf i absPath
                          (setLastError e (setState StateFailed zeroRecord)))
                       (fun _ => Ret (Some (Some e)))
              | inl proc =>
                  bind (call_ (ProcSignal proc SIGTERM)) (fun _ =>
                    bind (call_ Now) (fun now =>
                      stopLoopOf i fuel absPath pid proc (Add now (gracePeriodOf i))))
              end)) w).
Proof.
  intros Habs Hfuel Hgrace.
  destruct (fst (h _ (FindProcess pid) w)) as [proc | e] eqn:Hfind.
  - apply stop_done_bind.
    { rewrite run_call, Hfind. repeat constructor. }
    rewrite run_call. cbn [result final]. rewrite Hfind.
    apply stop_done_bind; [apply quiet_call; intros; repeat split; reflexivity |].
    apply stop_done_bind; [apply quiet_call; intros; repeat split; reflexivity |].
    rewrite !run_call. cbn [result final].
    apply (stopLoop_run i p w0); [exact Habs | exact Hfuel |].
    match goal with
    | |- context [h _ Now ?w'] => pose proof (clk_now h clk Hclock w') as [_ Hhi]
    end.
    unfold Add. lia.
  - apply (lookup_failed_run i p w0 absPath pid e); [exact Habs | exact Hfind | reflexivity].
Qed.

Lemma pidSetAndAlive_quiet_configurable pid :
  always quiet (Configurable.pidSetAndAlive pid).
Proof.
  unfold Configurable.pidSetAndAlive. destruct (Z.eqb pid 0); [exact I |].
  apply (isPidAlive_quiet (withOptions Configurable.NewController)).
Qed.

Lemma pidSetAndAlive_quiet_basic pid : always quiet (Basic.pidSetAndAlive pid).
Proof.
  unfold Basic.pidSetAndAlive. destruct (Z.eqb pid 0); [exact I |].
  apply (isPidAlive_quiet (plain Basic.NewController)).
Qed.

Lemma Stop_run i path w fuel :
  (1 <= fuel)%nat ->
  (gracePeriodOf i <= (Z.of_nat fuel - 1) * pollInterval)%Z ->
  stop_outcome h i path w (run h (StopOf i fuel path) w).
Proof.
  intros Hfuel Hgrace. unfold stop_outcome, stop_early_error.
  destruct (h _ (Abs path) w) as [a w1] eqn:Hh.
  assert (Ha : fst (h _ (Abs path) w) = a) by (rewrite Hh; reflexivity).
  assert (Hw1 : snd (h _ (Abs path) w) = w1) by (rewrite Hh; reflexivity).
  destruct a as [absPath | e].
  2: { destruct i as [c | c]; unfold StopOf, Configurable.Stop, Basic.Stop;
         rewrite run_bind, run_call; cbn [result final trace]; rewrite Ha;
         cbn; repeat split; reflexivity. }
  pose proof (loadRecord_trace_quiet h i absPath w1) as (Hlw & _ & Hll).
  pose proof (always_run quiet h (loadRecordOf i absPath) w1 (loadRecord_quiet i absPath))
    as Hlq.
  destruct i as [c | c]; unfold StopOf, Configurable.Stop, Basic.Stop;
    cbn [loadRecordOf] in Hlw, Hll, Hlq.
  - destruct (result (run h (Configurable.loadRecord c absPath) w1)) as [rec [e |]] eqn:Hload;
      cbn [snd].
    { rewrite run_bind, run_call. cbn [result final trace]. rewrite Ha, Hw1.
      rewrite run_bind. cbn [result final trace]. rewrite Hload.
      cbn [run result trace]. split; [reflexivity |].
      split_trace. rewrite Hlw, Hll. split; reflexivity. }
    exists absPath. split; [reflexivity |].
    apply stop_done_bind; [apply quiet_call; intros; repeat split; reflexivity |].
    rewrite run_call. cbn [result final]. rewrite Ha, Hw1.
    apply stop_done_bind; [exact Hlq |]. rewrite Hload.
    apply stop_done_bind; [apply always_run, pidSetAndAlive_quiet_configurable |].
    destruct (result (run h (Configurable.pidSetAndAlive (PID rec)) _)); cbn [negb].
    + exact (stop_signal_run (withOptions c) path w absPath (PID rec) fuel _ Ha Hfuel Hgrace).
    + apply stop_done_bind; [apply quiet_call; intros; repeat split; reflexivity |].
      apply (save_stopped_run (withOptions c) path w), Ha.
  - exists absPath. split; [reflexivity |].
    apply stop_done_bind; [apply quiet_call; intros; repeat split; reflexivity |].
    rewrite run_call. cbn [result final]. rewrite Ha, Hw1.
    apply stop_done_bind; [exact Hlq |].
    destruct (result (run h (Basic.loadRecord c absPath) w1)) as [rec err].
    apply stop_done_bind; [apply always_run, pidSetAndAlive_quiet_basic |].
    destruct (result (run h (Basic.pidSetAndAlive (PID rec)) _)); cbn [negb].
    + exact (stop_signal_run (plain c) path w absPath (PID rec) fuel _ Ha Hfuel Hgrace).
    + exact (save_stopped_run (plain c) path w absPath 0%Z _ Ha).
Qed.

End Stopping.

(** C4 (as the code has it). Given enough iterations for the grace period
    and a clock that does not run backwards, Stop returns, and it returns
    an error exactly when normalizing the path failed, when (in the
    version with options) loading the record failed, or when looking up
    the process handle of a live pid failed.  In the first two cases it
    writes nothing; in the third it hands one failed record carrying the
    error to the store; in every other case (pid zero or process dead,
    exit within the grace period, or expiry and forced kill, whatever the
    kill answers) it hands one stopped record to the store and returns
    success. *)
Theorem Stop_error_causes :
  forall (J : Json) (W : Type) (h : handler W) (clk : W -> Z) (i : Impl)
         (path : string) (w : W) (fuel : nat),
    abs_stable h ->
    ClockLaws h clk ->
    (1 <= fuel)%nat ->
    (gracePeriodOf i <= (Z.of_nat fuel - 1) * pollInterval)%Z ->
    let o := run h (StopOf i fuel path) w in
    stop_outcome h i path w o /\
    (exists res, result o = Some res /\
       (res <> None <->
        stop_early_error h i path w <> None \/ lookup_failures (trace o) <> [])).
Proof.
  intros J W h clk i path w fuel Hstable Hclock Hfuel Hgrace o.
  pose proof (Stop_run h clk Hstable Hclock i path w fuel Hfuel Hgrace) as Hout.
  fold o in Hout. split; [exact Hout |].
  unfold stop_outcome in Hout.
  destruct (stop_early_error h i path w) as [e |].
  - destruct Hout as (Hres & _ & _). exists (Some e). split; [exact Hres |].
    split; intros _; [left |]; discriminate.
  - destruct Hout as (absPath & _ & res & Hres & Hcase). exists res. split; [exact Hres |].
    destruct (lookup_failures (trace o)) as [| e rest].
    + destruct Hcase as [-> _]. split; [intros Hne; contradiction |].
      intros [Hne | Hne]; contradiction.
    + destruct Hcase as (_ & -> & _). split; intros _; [right |]; discriminate.
Qed.

Lemma Stop_error_causes_witness :
  let i := withOptions (Configurable.mkController (1 * Second) [] true) in
  let w := Sim.withStored (dbKey "/inst") (Sim.SRecord (Sim.runningRecord 100 5))
             (Sim.withProcess 100 (Sim.mkProc false true) (Sim.boot 1000)) in
  let o := run Sim.os (StopOf i 7 "/inst") w in
  (1 <= 7)%nat /\
  (gracePeriodOf i <= (Z.of_nat 7 - 1) * pollInterval)%Z /\
  stop_outcome Sim.os i "/inst" w o /\
  result o = Some None /\
  kills (trace o) = [100%Z].
Proof.
  intros i w o.
  assert (Hfuel : (1 <= 7)%nat) by lia.
  assert (Hgrace : (gracePeriodOf i <= (Z.of_nat 7 - 1) * pollInterval)%Z)
    by (vm_compute; discriminate).
  pose proof (Stop_error_causes Sim.json Sim.World Sim.os Sim.clock i "/inst" w 7
                Sim_abs_stable Sim_clock_laws Hfuel Hgrace) as [Hout _].
  split; [exact Hfuel |]. split; [exact Hgrace |]. split; [exact Hout |].
  split; vm_compute; reflexivity.
Defined.

(** C4 as stated does not hold: a stored value that does not decode makes
    Stop of the version with options return the codec's error, and a
    relative path with the working directory gone makes Stop of either
    version return the error of filepath.Abs; in both runs no lookup of a
    process handle failed (none was made). *)
Lemma Stop_error_without_lookup_failure :
  ~ stop_fails_iff_lookup_fails Sim.os (withOptions Configurable.NewController) 51 "/inst"
      (Sim.withStored (dbKey "/inst") (Sim.SString "oops") (Sim.boot 1000)) /\
  ~ stop_fails_iff_lookup_fails Sim.os (plain Basic.NewController) 51 "inst"
      (Sim.withoutWorkingDir (Sim.boot 1000)).
Proof.
  split; intros [Hfwd _]; apply Hfwd;
    [eexists; vm_compute; reflexivity | vm_compute; reflexivity
    | eexists; vm_compute; reflexivity | vm_compute; reflexivity].
Qed.

(** ** Watch tasks and the shared lock *)

Section WatchTasks.
Context `{Json}.

(** The pool once the watch task of [/a] has taken [watchLock]. *)
Lemma watcher_takes_lock c :
  exists p1, step (twoWatchers (withOptions c)) p1 /\
             held (env p1) = true /\
             persisted (env p1) = [] /\
             forall q, ~ step p1 q.
Proof.
  eexists (mkPool [_; watchOf (withOptions c) "/b" 102 None None]
                  (mkShared true (fun pid => if Z.eqb pid 102 then Some None else None) [])).
  split.
  - exists 0%nat. eexists. eexists. split; [reflexivity |]. split.
    + cbn. exists tt. split; [split; reflexivity | reflexivity].
    + reflexivity.
  - split; [reflexivity |]. split; [reflexivity |].
    intros q (i & t & t' & Hi & Hstep & _).
    destruct i as [| [| i]]; cbn in Hi; [| | discriminate Hi];
      injection Hi as <-; cbn in Hstep; destruct Hstep as (x & Hans & _);
      destruct Hans as [Hblocked _]; discriminate Hblocked.
Qed.

Lemma stuck_steps (p q : pool) : (forall r, ~ step p r) -> steps p q -> q = p.
Proof.
  intros Hstuck Hsteps. destruct Hsteps as [p | p q r Hstep _]; [reflexivity |].
  exfalso. exact (Hstuck q Hstep).
Qed.

Lemma step_intro (p : pool) i t t' s' :
  threads p !! i = Some t ->
  thread_step (env p) t t' s' ->
  step p (mkPool (<[i := t']> (threads p)) s').
Proof. intros Hi Hstep. exists i, t, t'. repeat split; assumption. Qed.

(** Without the lock, the watch task of [/b] runs to the end. *)
Lemma basic_watcher_proceeds c :
  exists p r, steps (twoWatchers (plain c)) p /\
              persisted (env p) = [(dbKey "/b", r)] /\
              rState r = StateStopped /\ PID r = 0%Z.
Proof.
  eexists. eexists. split.
  - eapply steps_step.
    { eapply (step_intro _ 1%nat); [reflexivity |].
      cbn. exists None. split; [split; reflexivity | reflexivity]. }
    eapply steps_step.
    { eapply (step_intro _ 1%nat); [reflexivity |].
      cbn. exists 5%Z. split; reflexivity. }
    eapply steps_step.
    { eapply (step_intro _ 1%nat); [reflexivity |].
      cbn. exists 6%Z. split; reflexivity. }
    eapply steps_step.
    { eapply (step_intro _ 1%nat); [reflexivity |].
      cbn. exists (inl "/b"). split; reflexivity. }
    eapply steps_step.
    { eapply (step_intro _ 1%nat); [reflexivity |].
      cbn. exists 7%Z. split; reflexivity. }
    eapply steps_step.
    { eapply (step_intro _ 1%nat); [reflexivity |].
      cbn. exists None. split; reflexivity. }
    apply steps_refl.
  - cbn. repeat split; reflexivity.
Qed.

End WatchTasks.

(** C9. In the version with options the watch tasks are serialized by
    watchLock: with the process of /a still running and the process of /b
    already exited, once the watch task of /a holds the lock no goroutine
    can take a step, so the terminal record of /b is not persisted for as
    long as the process of /a runs.  In the basic version the watch task
    of /b persists its stopped record in the same situation. *)
Theorem watch_tasks_serialized_by_watchLock :
  forall (J : Json) (c : Configurable.Controller) (c' : Basic.Controller),
    (exists p1, step (twoWatchers (withOptions c)) p1 /\
                forall p, steps p1 p -> persisted (env p) = []) /\
    (exists p r, steps (twoWatchers (plain c')) p /\
                 persisted (env p) = [(dbKey "/b", r)] /\
                 rState r = StateStopped /\ PID r = 0%Z).
Proof.
  intros J c c'. split; [| apply basic_watcher_proceeds].
  destruct (watcher_takes_lock c) as (p1 & Hstep & _ & Hnone & Hstuck).
  exists p1. split; [exact Hstep |].
  intros p Hsteps. rewrite (stuck_steps p1 p Hstuck Hsteps). exact Hnone.
Qed.

(** ** The package's tests, run in the simulated environment *)

(** [TestSaveLoadRecord]: with [WithUseAbsPaths(false)], a record saved
    under [inst1] is loaded with its state and pid. *)
Example TestSaveLoadRecord :
  let c := Configurable.mkController (10 * Second) [] false in
  let rec := mkRecord StateStarting 123 0 0 0 "" in
  let saved := run Sim.os (Configurable.saveRecord c "inst1" rec) (Sim.boot 1000) in
  let loaded := run Sim.os (Configurable.loadRecord c "inst1") (final saved) in
  result saved = None /\
  result loaded = (mkRecord StateStarting 123 0 0 1000 "", None).
Proof. vm_compute. split; reflexivity. Qed.

(** [TestStartStop]: after Start the state is running with a pid, after
    Stop it is stopped. *)
Example TestStartStop :
  let c := Configurable.mkController (2 * Second) [] false in
  let started := run Sim.os (Configurable.Start c "/tmp/dir" ["sh"; "-c"; "sleep 2"])
                     (Sim.boot 1000) in
  let state := run Sim.os (Configurable.GetState c "/tmp/dir") (final started) in
  let stopped := run Sim.os (Configurable.Stop 11 c "/tmp/dir") (final state) in
  let state2 := run Sim.os (Configurable.GetState c "/tmp/dir") (final stopped) in
  result started = None /\
  rState (fst (result state)) = StateRunning /\ PID (fst (result state)) = 100%Z /\
  result stopped = Some None /\
  rState (fst (result state2)) = StateStopped /\ PID (fst (result state2)) = 0%Z.
Proof. vm_compute. repeat split; reflexivity. Qed.

(** Stop when the handle of the live process cannot be had: the error is
    returned and a failed record carrying it is written. *)
Example Stop_lookup_failure :
  let c := Basic.NewController in
  let w := Sim.withFailingLookup
             (Sim.withStored (dbKey "/inst") (Sim.SRecord (Sim.runningRecord 100 5))
                (Sim.withProcess 100 (Sim.mkProc false false) (Sim.boot 1000))) in
  let o := run Sim.os (Basic.Stop 51 c "/inst") w in
  result o = Some (Some "os: process not initialized") /\
  writes (trace o) =
    [(dbKey "/inst", mkRecord StateFailed 0 0 0 1000 "os: process not initialized", None)].
Proof. vm_compute. split; reflexivity. Qed.

(** * Further properties of the code *)

Section TreeFacts.
Context `{Json}.

Lemma always_weaken {A} (P Q : call -> Prop) (p : prog A) :
  (forall c, P c -> Q c) -> always P p -> always Q p.
Proof.
  intros HPQ. induction p as [a | X e k IH]; simpl; [trivial |].
  intros Hp x. destruct (Hp x) as [Hx Hk]. split; [apply HPQ, Hx | apply IH, Hk].
Qed.

Lemma all_runs_weaken {A} (p : prog A) (Q Q' : list call -> A -> Prop) :
  (forall tr a, Q tr a -> Q' tr a) -> all_runs p Q -> all_runs p Q'.
Proof.
  revert Q Q'. induction p as [a | X e k IH]; simpl; intros Q Q' HQ Hp.
  - apply HQ, Hp.
  - intros x. eapply IH; [| apply Hp]. intros tr a. apply HQ.
Qed.

End TreeFacts.

(** Closes a leaf whose trace contradicts an assumption on the failed
    [filepath.Abs] calls, on the decoding of what [Get] returned, or on
    the answers of the probes. *)
Ltac no_abs_failure :=
  match goal with
  | Ha : abs_failures _ = [] |- _ => cbn in Ha; discriminate Ha
  end.

Ltac decodes_fine :=
  match goal with
  | Hd : forall k v, In (k, inl v) (gets _) -> decode_error v = None |- _ =>
      specialize (Hd _ _ (or_introl eq_refl)); unfold decode_error in Hd;
      repeat match goal with
             | Heq : Marshal _ = _ |- _ => rewrite Heq in Hd
             | Heq : Unmarshal _ _ = _ |- _ => rewrite Heq in Hd
             end;
      cbn in Hd; discriminate Hd
  end.

Ltac probed_alive :=
  match goal with
  | Hp : Forall _ (probes _) |- _ =>
      cbn in Hp; apply Forall_inv in Hp; cbn in Hp; congruence
  end.

(** ** Start without a command *)

Section StartWithoutCommand.
Context `{Json}.

Lemma Start_without_command_runs i path :
  effectiveCmd i [] = [] ->
  all_runs (StartOf i path [])
    (fun tr res =>
       writes tr = [] /\ spawns tr = [] /\ launches tr = [] /\ opens tr = [] /\
       (abs_failures tr = [] ->
        (forall k v, In (k, inl v) (gets tr) -> decode_error v = None) ->
        Forall (fun p => answer_alive i (snd p) = false) (probes tr) ->
        res = Some "launch command required")).
Proof.
  destruct i as [c | c]; cbn [effectiveCmd length Nat.eqb]; intros Hdefault;
    unfold StartOf, Configurable.Start, Configurable.pidSetAndAlive, Configurable.loadRecord,
      Configurable.isPidAlive, Configurable.formatDBKey,
      Basic.Start, Basic.pidSetAndAlive, Basic.loadRecord, Basic.isPidAlive, Basic.dbKeyFor;
    try rewrite Hdefault; cbn [length Nat.eqb andb];
    walk_runs; (repeat split; try reflexivity);
    intros Habs Hdec Hprobes;
    first [ reflexivity | no_abs_failure | decodes_fine | probed_alive ].
Qed.

End StartWithoutCommand.

(** X1. Start without a command (and, in the version with options,
    without a default command) changes nothing: it writes no record,
    launches nothing and opens no log file; and unless the path or the
    stored record could not be read or the recorded process was probed
    alive, it returns the error "launch command required". *)
Theorem Start_without_command :
  forall (J : Json) (W : Type) (h : handler W) (i : Impl) (path : string) (w : W),
    effectiveCmd i [] = [] ->
    let o := run h (StartOf i path []) w in
    writes (trace o) = [] /\ spawns (trace o) = [] /\ launches (trace o) = [] /\
    opens (trace o) = [] /\
    (abs_failures (trace o) = [] ->
     (forall k v, In (k, inl v) (gets (trace o)) -> decode_error v = None) ->
     Forall (fun p => answer_alive i (snd p) = false) (probes (trace o)) ->
     result o = Some "launch command required").
Proof.
  intros J W h i path w Hdefault o.
  exact (all_runs_run h _ _ w (Start_without_command_runs i path Hdefault)).
Qed.

Lemma Start_without_command_witness :
  let i := withOptions Configurable.NewController in
  let o := run Sim.os (StartOf i "/inst" []) (Sim.boot 1000) in
  effectiveCmd i [] = [] /\
  abs_failures (trace o) = [] /\
  writes (trace o) = [] /\ spawns (trace o) = [] /\
  result o = Some "launch command required".
Proof.
  intros i o.
  assert (Hdefault : effectiveCmd i [] = []) by reflexivity.
  pose proof (Start_without_command Sim.json Sim.World Sim.os i "/inst" (Sim.boot 1000)
                Hdefault) as (Hw & Hs & _ & _ & Hres).
  split; [exact Hdefault |]. split; [vm_compute; reflexivity |].
  split; [exact Hw |]. split; [exact Hs |].
  apply Hres.
  - vm_compute. reflexivity.
  - intros k v Hin. vm_compute in Hin. destruct Hin as [Hin | []]. discriminate Hin.
  - vm_compute. constructor.
Defined.

(** ** What Start leaves behind *)

Section StartOutcomes.
Context `{Json}.

Ltac unfold_Start :=
  unfold StartOf, Configurable.Start, Configurable.pidSetAndAlive, Configurable.loadRecord,
    Configurable.saveRecord, Configurable.isPidAlive, Configurable.formatDBKey,
    Basic.Start, Basic.pidSetAndAlive, Basic.loadRecord,
    Basic.saveRecord, Basic.isPidAlive, Basic.dbKeyFor.

Ltac the_spawn :=
  match goal with
  | Hin : In _ (spawns _) |- _ =>
      cbn in Hin; repeat (destruct Hin as [Hin | Hin]);
      try contradiction; try discriminate Hin; injection Hin as ? ?; subst
  end.

Lemma Start_first_call {W} (h : handler W) i path cmd w :
  hd_error (abs_calls (trace (run h (StartOf i path cmd) w)))
  = Some (path, fst (h _ (Abs path) w)).
Proof. destruct i as [c | c]; reflexivity. Qed.

Lemma Start_launched_runs i path cmd :
  all_runs (StartOf i path cmd)
    (fun tr res => forall cmd' pid,
       In (cmd', inl pid) (spawns tr) ->
       abs_failures tr = [] ->
       res = None /\
       exists absPath out err t1 started t2,
         hd_error (abs_calls tr) = Some (path, inl absPath) /\
         mkdirs tr = [Join absPath "logs"] /\
         opened tr = [(Join (Join absPath "logs") "stdout.log", out);
                      (Join (Join absPath "logs") "stderr.log", err)] /\
         spawns tr = [(mkCmd (effectiveCmd i cmd) absPath out err, inl pid)] /\
         opens tr = [out; err] /\
         records tr =
           [setUpdatedAt t1 (setState StateStarting zeroRecord);
            setUpdatedAt t2
              (setStartedAt started (setPID pid (setState StateRunning zeroRecord)))] /\
         launches tr = [(absPath, pid, out, err)] /\
         closes tr = []).
Proof.
  destruct i as [c | c]; unfold_Start; walk_runs; the_spawn;
    first [ no_abs_failure
          | split; [reflexivity |]; do 6 eexists; repeat split; reflexivity ].
Qed.

Lemma Start_launch_failed_runs i path cmd :
  all_runs (StartOf i path cmd)
    (fun tr res => forall cmd' e,
       In (cmd', inr e) (spawns tr) ->
       abs_failures tr = [] ->
       res = Some e /\
       exists out err t1 t2,
         opens tr = [out; err] /\
         records tr = [setUpdatedAt t1 (setState StateStarting zeroRecord); failedWith e t2] /\
         launches tr = [] /\
         closes tr = match i with
                     | withOptions _ => omap id [out; err]
                     | plain _ => []
                     end).
Proof.
  destruct i as [c | c]; unfold_Start; walk_runs; the_spawn;
    first [ no_abs_failure
          | split; [reflexivity |]; do 4 eexists; repeat split; reflexivity ].
Qed.

Lemma Configurable_Start_files_runs c path cmd :
  all_runs (Configurable.Start c path cmd)
    (fun tr _ =>
       match launches tr with
       | [] => closes tr = omap id (opens tr)
       | [(_, _, out, err)] => closes tr = [] /\ opens tr = [out; err]
       | _ => False
       end).
Proof.
  unfold_Start; walk_runs; cbn; repeat split; reflexivity.
Qed.

Lemma Basic_Start_files_runs c path cmd :
  all_runs (Basic.Start c path cmd) (fun tr _ => closes tr = []).
Proof.
  unfold_Start; walk_runs; reflexivity.
Qed.

End StartOutcomes.

(** X2. When the launch of the command succeeds (and no path
    normalization failed), Start returns success.  With absPath the
    answer of filepath.Abs on the target path, it has created
    absPath/logs, opened absPath/logs/stdout.log and
    absPath/logs/stderr.log, launched exactly the caller's command (or
    the default when the caller gave none) with absPath as working
    directory and the two opened files as output, handed the store a
    starting record and then a running record with the new pid and a
    start time, started exactly one watch task for absPath, that pid and
    those files, and closed no file. *)
Theorem Start_launched :
  forall (J : Json) (W : Type) (h : handler W) (i : Impl) (path : string)
         (cmd : list string) (w : W) (cmd' : Cmd) (pid : Z),
    let o := run h (StartOf i path cmd) w in
    In (cmd', inl pid) (spawns (trace o)) ->
    abs_failures (trace o) = [] ->
    result o = None /\
    exists absPath out err t1 started t2,
      fst (h _ (Abs path) w) = inl absPath /\
      mkdirs (trace o) = [Join absPath "logs"] /\
      opened (trace o) = [(Join (Join absPath "logs") "stdout.log", out);
                          (Join (Join absPath "logs") "stderr.log", err)] /\
      spawns (trace o) = [(mkCmd (effectiveCmd i cmd) absPath out err, inl pid)] /\
      opens (trace o) = [out; err] /\
      records (trace o) =
        [setUpdatedAt t1 (setState StateStarting zeroRecord);
         setUpdatedAt t2
           (setStartedAt started (setPID pid (setState StateRunning zeroRecord)))] /\
      launches (trace o) = [(absPath, pid, out, err)] /\
      closes (trace o) = [].
Proof.
  intros J W h i path cmd w cmd' pid o Hin Habs.
  destruct (all_runs_run h _ _ w (Start_launched_runs i path cmd) cmd' pid Hin Habs)
    as (Hres & absPath & out & err & t1 & started & t2 & Hfirst & Hrest).
  split; [exact Hres |].
  exists absPath, out, err, t1, started, t2. split; [| exact Hrest].
  rewrite Start_first_call in Hfirst. injection Hfirst as Hfirst. exact Hfirst.
Qed.

Lemma Start_launched_witness :
  let i := withOptions (Configurable.mkController (10 * Second) ["run.sh"] true) in
  let o := run Sim.os (StartOf i "inst" []) (Sim.boot 1000) in
  In (mkCmd ["run.sh"] "/srv/inst" (Some 3%Z) (Some 3%Z), inl 100%Z) (spawns (trace o)) /\
  abs_failures (trace o) = [] /\
  result o = None /\
  fst (Sim.os _ (Abs "inst") (Sim.boot 1000)) = inl "/srv/inst" /\
  launches (trace o) = [("/srv/inst", 100%Z, Some 3%Z, Some 3%Z)].
Proof.
  intros i o.
  assert (Hin : In (mkCmd ["run.sh"] "/srv/inst" (Some 3%Z) (Some 3%Z), inl 100%Z)
                   (spawns (trace o))) by (vm_compute; left; reflexivity).
  assert (Habs : abs_failures (trace o) = []) by (vm_compute; reflexivity).
  pose proof (Start_launched Sim.json Sim.World Sim.os i "inst" [] (Sim.boot 1000)
                _ _ Hin Habs) as (Hres & _).
  split; [exact Hin |]. split; [exact Habs |]. split; [exact Hres |].
  split; vm_compute; reflexivity.
Defined.

(** X3. When the launch of the command fails (and no path normalization
    failed), Start returns the launch error, has handed the store a
    starting record and then a failed record carrying the error, and has
    started no watch task.  The version with options has then closed the
    log files it opened; the basic version has closed none. *)
Theorem Start_launch_failed :
  forall (J : Json) (W : Type) (h : handler W) (i : Impl) (path : string)
         (cmd : list string) (w : W) (cmd' : Cmd) (e : error),
    let o := run h (StartOf i path cmd) w in
    In (cmd', inr e) (spawns (trace o)) ->
    abs_failures (trace o) = [] ->
    result o = Some e /\
    exists out err t1 t2,
      opens (trace o) = [out; err] /\
      records (trace o) = [setUpdatedAt t1 (setState StateStarting zeroRecord); failedWith e t2] /\
      launches (trace o) = [] /\
      closes (trace o) = match i with
                         | withOptions _ => omap id [out; err]
                         | plain _ => []
                         end.
Proof.
  intros J W h i path cmd w cmd' e o.
  exact (all_runs_run h _ _ w (Start_launch_failed_runs i path cmd) cmd' e).
Qed.

Lemma Start_launch_failed_witness :
  let i := plain Basic.NewController in
  let w := Sim.mkWorld 1000 ∅ false false ∅ 100 false false in
  let o := run Sim.os (StartOf i "/inst" ["nope"]) w in
  let e := "exec: executable file not found in $PATH" in
  In (mkCmd ["nope"] "/inst" (Some 3%Z) (Some 3%Z), inr e) (spawns (trace o)) /\
  abs_failures (trace o) = [] /\
  result o = Some e /\
  opens (trace o) = [Some 3%Z; Some 3%Z] /\
  closes (trace o) = [].
Proof.
  intros i w o e.
  assert (Hin : In (mkCmd ["nope"] "/inst" (Some 3%Z) (Some 3%Z), inr e) (spawns (trace o)))
    by (vm_compute; left; reflexivity).
  assert (Habs : abs_failures (trace o) = []) by (vm_compute; reflexivity).
  pose proof (Start_launch_failed Sim.json Sim.World Sim.os i "/inst" ["nope"] w
                _ _ Hin Habs) as (Hres & _).
  split; [exact Hin |]. split; [exact Habs |]. split; [exact Hres |].
  split; vm_compute; reflexivity.
Defined.

(** X4. In the version with options Start leaks no log file: on every
    path that starts no watch task it has closed each file it opened, and
    when it starts the watch task it has closed none and hands over the
    two it opened.  In the basic version Start never closes a file. *)
Theorem Start_log_files :
  forall (J : Json) (W : Type) (h : handler W) (path : string) (cmd : list string) (w : W),
    (forall c,
       let tr := trace (run h (Configurable.Start c path cmd) w) in
       match launches tr with
       | [] => closes tr = omap id (opens tr)
       | [(_, _, out, err)] => closes tr = [] /\ opens tr = [out; err]
       | _ => False
       end) /\
    (forall c, closes (trace (run h (Basic.Start c path cmd) w)) = []).
Proof.
  intros J W h path cmd w. split; intros c.
  - exact (all_runs_run h _ _ w (Configurable_Start_files_runs c path cmd)).
  - exact (all_runs_run h _ _ w (Basic_Start_files_runs c path cmd)).
Qed.

(** ** The watch task *)

Section WatchOutcome.
Context `{Json}.

Lemma watch_runs i absPath pid out err :
  all_runs (watchOf i absPath pid out err)
    (fun tr _ =>
       exists st,
         waits tr = [(pid, st)] /\
         closes tr = omap id [out; err] /\
         spawns tr = [] /\ launches tr = [] /\ signals tr = [] /\
         (abs_failures tr = [] ->
          match st with
          | Some e => exists t', records tr = [failedWith e t']
          | None => exists stopped t', records tr = [stoppedAt stopped t']
          end)).
Proof.
  destruct i as [c | c];
    unfold watchOf, Configurable.watchProcess, Basic.watch, Configurable.saveRecord,
      Basic.saveRecord, Configurable.formatDBKey, Basic.dbKeyFor;
    walk_runs; eexists; (repeat split; try reflexivity); intros Habs;
    first [ no_abs_failure | eexists; reflexivity | eexists; eexists; reflexivity ].
Qed.

Lemma watchProcess_lock_runs c absPath pid out err :
  all_runs (Configurable.watchProcess c absPath pid out err)
    (fun tr _ =>
       head tr = Some (Call Lock tt) /\
       last tr = Some (Call Unlock tt) /\
       lock_ops tr = [Acquire; Release]).
Proof.
  unfold Configurable.watchProcess, Configurable.saveRecord, Configurable.formatDBKey;
    walk_runs; repeat split;
    repeat match goal with u : unit |- _ => destruct u end; reflexivity.
Qed.

Lemma watch_lock_free_runs c absPath pid out err :
  all_runs (Basic.watch c absPath pid out err) (fun tr _ => lock_ops tr = []).
Proof.
  unfold Basic.watch, Basic.saveRecord, Basic.dbKeyFor; walk_runs; reflexivity.
Qed.

End WatchOutcome.

(** X5. A watch task waits exactly once, for its own process, and then
    hands the store exactly one record (when the path normalizes): a
    failed record carrying the error of the wait, or a stopped record
    with a stop time when the wait returned no error; in both the pid is
    zero.  It closes each log file it was given, and it launches and
    signals nothing. *)
Theorem watch_task_outcome :
  forall (J : Json) (W : Type) (h : handler W) (i : Impl) (absPath : string) (pid : Z)
         (out err : option File) (w : W),
    let tr := trace (run h (watchOf i absPath pid out err) w) in
    exists st,
      waits tr = [(pid, st)] /\
      closes tr = omap id [out; err] /\
      spawns tr = [] /\ launches tr = [] /\ signals tr = [] /\
      (abs_failures tr = [] ->
       match st with
       | Some e => exists t', records tr = [failedWith e t']
       | None => exists stopped t', records tr = [stoppedAt stopped t']
       end).
Proof.
  intros J W h i absPath pid out err w.
  exact (all_runs_run h _ _ w (watch_runs i absPath pid out err)).
Qed.

(** X6. The watch task of the version with options takes watchLock as its
    first call and releases it as its last, once each, so it holds the
    lock across the wait for the process, the write of the terminal
    record and the closing of the files.  The watch task of the basic
    version never touches a lock. *)
Theorem watch_task_lock :
  forall (J : Json) (W : Type) (h : handler W) (absPath : string) (pid : Z)
         (out err : option File) (w : W),
    (forall c,
       let tr := trace (run h (Configurable.watchProcess c absPath pid out err) w) in
       head tr = Some (Call Lock tt) /\
       last tr = Some (Call Unlock tt) /\
       lock_ops tr = [Acquire; Release]) /\
    (forall c, lock_ops (trace (run h (Basic.watch c absPath pid out err) w)) = []).
Proof.
  intros J W h absPath pid out err w. split; intros c.
  - exact (all_runs_run h _ _ w (watchProcess_lock_runs c absPath pid out err)).
  - exact (all_runs_run h _ _ w (watch_lock_free_runs c absPath pid out err)).
Qed.

(** ** What GetState touches *)

Section GetStateFootprint.
Context `{Json}.

Ltac unfold_GetState :=
  unfold GetStateOf, Configurable.GetState, Basic.GetState,
    Configurable.loadRecord, Basic.loadRecord,
    Configurable.saveRecord, Basic.saveRecord,
    Configurable.isPidAlive, Basic.isPidAlive,
    Configurable.formatDBKey, Basic.dbKeyFor.

Lemma GetState_footprint_runs i path :
  all_runs (GetStateOf i path)
    (fun tr res =>
       spawns tr = [] /\ launches tr = [] /\ signals tr = [] /\ sleeps tr = [] /\
       opens tr = [] /\ closes tr = [] /\ lock_ops tr = [] /\ lookup_failures tr = [] /\
       (writes tr = [] \/
        exists k r a, writes tr = [(k, r, a)] /\
                      rState r = StateStopped /\ PID r = 0%Z /\
                      Forall (fun p => answer_alive i (snd p) = false) (probes tr))).
Proof.
  destruct i as [c | c]; unfold_GetState; walk_runs; try absurd_branch;
    (repeat split; try reflexivity);
    first [ left; reflexivity
          | right; do 3 eexists; repeat split; try reflexivity;
            cbn; repeat constructor; cbn; congruence ].
Qed.

Lemma GetState_reads_runs i path :
  all_runs (GetStateOf i path)
    (fun tr res => forall k v,
       In (k, inl v) (gets tr) ->
       abs_failures tr = [] ->
       writes tr = [] ->
       snd res = None ->
       exists b, Marshal v = inl b /\ Unmarshal b zeroRecord = (fst res, None)).
Proof.
  destruct i as [c | c]; unfold_GetState; walk_runs; try absurd_branch;
    in_gets; try no_abs_failure;
    match goal with
    | Hin : (_, inl _) = (_, inl _) |- _ => injection Hin as ? ?; subst
    end;
    match goal with
    | Hw : writes _ = [] |- _ => cbn in Hw; try discriminate Hw
    end;
    match goal with
    | Hr : snd _ = None |- _ => cbn in Hr; try discriminate Hr
    end;
    (eexists; split; [eassumption | cbn; assumption]).
Qed.

End GetStateFootprint.

(** X7. GetState launches nothing, sends no signal, never sleeps, opens
    or closes no file and takes no lock.  It hands at most one record to
    the store, a stopped record with pid zero, and only in a run in which
    no probe was answered alive; in particular it writes nothing when the
    recorded process is probed alive. *)
Theorem GetState_footprint :
  forall (J : Json) (W : Type) (h : handler W) (i : Impl) (path : string) (w : W),
    let tr := trace (run h (GetStateOf i path) w) in
    spawns tr = [] /\ launches tr = [] /\ signals tr = [] /\ sleeps tr = [] /\
    opens tr = [] /\ closes tr = [] /\ lock_ops tr = [] /\ lookup_failures tr = [] /\
    (writes tr = [] \/
     exists k r a, writes tr = [(k, r, a)] /\
                   rState r = StateStopped /\ PID r = 0%Z /\
                   Forall (fun p => answer_alive i (snd p) = false) (probes tr)).
Proof.
  intros J W h i path w.
  exact (all_runs_run h _ _ w (GetState_footprint_runs i path)).
Qed.

(** X8. When GetState succeeds without handing a record to the store
    (and no path normalization failed), the record it returns is exactly
    what the codec makes of the value the store returned: it reports the
    stored record unchanged. *)
Theorem GetState_reports_stored_record :
  forall (J : Json) (W : Type) (h : handler W) (i : Impl) (path : string) (w : W)
         (k : string) (v : value),
    let o := run h (GetStateOf i path) w in
    In (k, inl v) (gets (trace o)) ->
    abs_failures (trace o) = [] ->
    writes (trace o) = [] ->
    snd (result o) = None ->
    exists b, Marshal v = inl b /\ Unmarshal b zeroRecord = (fst (result o), None).
Proof.
  intros J W h i path w k v o.
  exact (all_runs_run h _ _ w (GetState_reads_runs i path) k v).
Qed.

Lemma GetState_reports_stored_record_witness :
  let i := plain Basic.NewController in
  let rec := Sim.runningRecord 100 5 in
  let w := Sim.withStored (dbKey "/inst") (Sim.SRecord rec)
             (Sim.withProcess 100 (Sim.mkProc false false) (Sim.boot 1000)) in
  let o := run Sim.os (GetStateOf i "/inst") w in
  In (dbKey "/inst", inl (Sim.SRecord rec)) (gets (trace o)) /\
  abs_failures (trace o) = [] /\
  writes (trace o) = [] /\
  snd (result o) = None /\
  exists b, @Marshal Sim.json (Sim.SRecord rec) = inl b /\
            @Unmarshal Sim.json b zeroRecord = (fst (result o), None).
Proof.
  intros i rec w o.
  assert (Hin : In (dbKey "/inst", inl (Sim.SRecord rec)) (gets (trace o)))
    by (vm_compute; left; reflexivity).
  assert (Ha : abs_failures (trace o) = []) by (vm_compute; reflexivity).
  assert (Hw : writes (trace o) = []) by (vm_compute; reflexivity).
  assert (Hr : snd (result o) = None) by (vm_compute; reflexivity).
  split; [exact Hin |]. split; [exact Ha |]. split; [exact Hw |]. split; [exact Hr |].
  exact (GetState_reports_stored_record Sim.json Sim.World Sim.os i "/inst" w
           _ _ Hin Ha Hw Hr).
Defined.

(** ** The fields of written records *)

(** Walks through a program tree for an [always (write_sat R)] goal and
    leaves the records to [tac]. *)
Ltac walk_sat tac :=
  repeat (cbn [always bind call_ closeIfOpen];
          match goal with
          | |- True => exact I
          | |- forall _, _ => intros ?
          | |- write_sat _ _ => cbn; first [ exact I | solve [tac] ]
          | |- _ /\ _ => split
          | |- always _ (if ?b then _ else _) => destruct b
          | |- always _ (match ?x with _ => _ end) => destruct x
          | |- always _ (bind (if ?b then _ else _) _) => destruct b
          | |- always _ (bind (match ?x with _ => _ end) _) => destruct x
          | |- always _ (bind (bind (if ?b then _ else _) _) _) => destruct b
          | |- always _ (bind (bind (match ?x with _ => _ end) _) _) => destruct x
          | |- always _ (bind (closeIfOpen ?f) _) => is_var f; destruct f
          | |- always _ (closeIfOpen ?f) => is_var f; destruct f
          end).

Ltac discipline :=
  unfold field_discipline; cbn; repeat split;
  try (intros Hne; exfalso; apply Hne; reflexivity);
  try (intros _; reflexivity);
  try (left; reflexivity);
  try (right; left; reflexivity);
  try (right; right; left; reflexivity);
  try (right; right; right; reflexivity).

Section FieldDiscipline.
Context `{Json}.

Ltac unfold_ops :=
  unfold StartOf, StopOf, watchOf,
    Configurable.Start, Configurable.Stop, Configurable.watchProcess,
    Configurable.pidSetAndAlive, Configurable.loadRecord,
    Configurable.saveRecord, Configurable.isPidAlive, Configurable.formatDBKey,
    Basic.Start, Basic.Stop, Basic.watch, Basic.pidSetAndAlive, Basic.loadRecord,
    Basic.saveRecord, Basic.isPidAlive, Basic.dbKeyFor.

Lemma Start_discipline i path cmd :
  always (write_sat field_discipline) (StartOf i path cmd).
Proof. destruct i as [c | c]; unfold_ops; walk_sat discipline. Qed.

Lemma watch_discipline i absPath pid out err :
  always (write_sat field_discipline) (watchOf i absPath pid out err).
Proof. destruct i as [c | c]; unfold_ops; walk_sat discipline. Qed.

Lemma stopLoop_discipline i fuel absPath pid proc deadline :
  always (write_sat field_discipline) (stopLoopOf i fuel absPath pid proc deadline).
Proof.
  induction fuel as [| fuel IH]; [destruct i; exact I |].
  destruct i as [c | c]; cbn [stopLoopOf Configurable.stopLoop Basic.stopLoop] in *;
    unfold_ops; walk_sat discipline; exact IH.
Qed.

Lemma Stop_discipline i fuel path :
  always (write_sat field_discipline) (StopOf i fuel path).
Proof.
  destruct i as [c | c]; unfold_ops; walk_sat discipline;
    first [ apply (stopLoop_discipline (withOptions c))
          | apply (stopLoop_discipline (plain c)) ].
Qed.

Lemma write_sat_records (R : InstanceRecord -> Prop) (tr : list call) :
  Forall (write_sat R) tr -> Forall R (records tr).
Proof.
  induction 1 as [| c tr Hc _ IH]; [constructor |].
  unfold records. rewrite writes_cons. unfold write_sat in Hc.
  destruct (write_of c) as [[[k r] res] |]; [| exact IH].
  constructor; [exact Hc | exact IH].
Qed.

End FieldDiscipline.

(** X9. Every record that Start, Stop or the watch task hands to the
    store has one of the states starting, running, stopped or failed
    (never unknown, never stopping), a last_error only when failed, a
    started_at only when running and a stopped_at only when stopped. *)
Theorem written_records_field_discipline :
  forall (J : Json) (W : Type) (h : handler W) (i : Impl) (w : W),
    (forall path cmd,
       Forall field_discipline (records (trace (run h (StartOf i path cmd) w)))) /\
    (forall fuel path,
       Forall field_discipline (records (trace (run h (StopOf i fuel path) w)))) /\
    (forall absPath pid out err,
       Forall field_discipline (records (trace (run h (watchOf i absPath pid out err) w)))).
Proof.
  intros J W h i w. repeat split; intros; apply write_sat_records, always_run.
  - apply Start_discipline.
  - apply Stop_discipline.
  - apply watch_discipline.
Qed.

(** ** What Stop sends *)

Ltac split_conj := repeat match goal with |- _ /\ _ => split end.

Section StopSignals.
Context `{Json}.

Ltac unfold_stop :=
  unfold StopOf, Configurable.Stop, Basic.Stop,
    Configurable.pidSetAndAlive, Configurable.loadRecord,
    Configurable.saveRecord, Configurable.isPidAlive, Configurable.formatDBKey,
    Basic.pidSetAndAlive, Basic.loadRecord,
    Basic.saveRecord, Basic.isPidAlive, Basic.dbKeyFor.

Lemma stopLoop_sends i fuel absPath pid proc deadline :
  all_runs (stopLoopOf i fuel absPath pid proc deadline)
           (fun tr _ => loop_sends i proc tr).
Proof.
  induction fuel as [| fuel IH].
  { destruct i; unfold loop_sends; cbn; split_conj;
      first [ left; reflexivity | solve [constructor] ]. }
  destruct i as [c | c]; cbn [stopLoopOf Configurable.stopLoop Basic.stopLoop] in *;
    unfold_stop; walk_runs; try absurd_branch;
    first
      [ (eapply all_runs_weaken; [| exact IH]);
        intros tr _ (Hs & Hl & Hk & Ho & Hc & Hsl & Hsig);
        unfold loop_sends; cbn;
        split_conj;
        [ exact Hs | exact Hl | exact Hk | exact Ho | exact Hc
        | constructor; [reflexivity | exact Hsl]
        | destruct Hsig as [Hsig | [Hsig Hp]];
          [ left; exact Hsig
          | right; split; [exact Hsig |]; constructor; [cbn; congruence | exact Hp] ] ]
      | unfold loop_sends; cbn; split_conj;
        first [ left; reflexivity
              | right; split; [reflexivity | solve [constructor]]
              | solve [constructor] ] ].
Qed.

Lemma Stop_sends i fuel path :
  all_runs (StopOf i fuel path) (fun tr _ => stop_sends i tr).
Proof.
  destruct i as [c | c]; unfold_stop; walk_runs; try absurd_branch;
    first
      [ (eapply all_runs_weaken;
         [| first [ exact (stopLoop_sends (withOptions c) fuel _ _ _ _)
                  | exact (stopLoop_sends (plain c) fuel _ _ _ _) ] ]);
        intros tr _ (Hs & Hl & Hk & Ho & Hc & Hsl & Hsig);
        unfold signals in Hsig; unfold stop_sends; cbn;
        split_conj;
        [ exact Hs | exact Hl | exact Hk | exact Ho | exact Hc | exact Hsl
        | right; eexists;
          destruct Hsig as [Hsig | [Hsig Hp]];
          [ left; rewrite Hsig; reflexivity
          | right; split; [rewrite Hsig; reflexivity |];
            constructor; [cbn; congruence | exact Hp] ] ]
      | unfold stop_sends; cbn; split_conj;
        first [ left; reflexivity | solve [constructor] ] ].
Qed.

End StopSignals.

(** ** How long Stop polls *)

Section StopPolling.
Context `{Json}.
Context {W : Type} (h : handler W) (clk : W -> Z).
Hypothesis Hclock : ClockLaws h clk.

Lemma sleeps_app (tr1 tr2 : list call) :
  sleeps (tr1 ++ tr2)%list = (sleeps tr1 ++ sleeps tr2)%list.
Proof. apply omap_app. Qed.

Lemma sleepless_trace (tr : list call) : Forall sleepless tr -> sleeps tr = [].
Proof.
  induction 1 as [| c tr Hc _ IH]; [reflexivity |].
  unfold sleeps. cbn [omap list_omap]. fold (sleeps tr). rewrite Hc. exact IH.
Qed.

Ltac walk_sleepless :=
  repeat (cbn [always bind call_ closeIfOpen];
          match goal with
          | |- True => exact I
          | |- sleepless _ => reflexivity
          | |- forall _, _ => intros ?
          | |- _ /\ _ => split
          | |- always _ (if ?b then _ else _) => destruct b
          | |- always _ (match ?x with _ => _ end) => destruct x
          | |- always _ (bind (if ?b then _ else _) _) => destruct b
          | |- always _ (bind (match ?x with _ => _ end) _) => destruct x
          end).

Lemma loadRecord_sleepless i path : always sleepless (loadRecordOf i path).
Proof.
  destruct i as [c | c];
    unfold loadRecordOf, Configurable.loadRecord, Basic.loadRecord,
      Configurable.formatDBKey, Basic.dbKeyFor; walk_sleepless.
Qed.

Lemma saveRecord_sleepless i path r : always sleepless (saveRecordOf i path r).
Proof.
  destruct i as [c | c];
    unfold saveRecordOf, Configurable.saveRecord, Basic.saveRecord,
      Configurable.formatDBKey, Basic.dbKeyFor; walk_sleepless.
Qed.

Lemma isPidAlive_sleepless i pid : always sleepless (isPidAliveOf i pid).
Proof.
  destruct i as [c | c];
    unfold isPidAliveOf, Configurable.isPidAlive, Basic.isPidAlive; walk_sleepless.
Qed.

Lemma polls_within_bind {A} (m : prog A) (f : A -> prog (option (option error))) w bound :
  Forall sleepless (trace (run h m w)) ->
  polls_within bound (trace (run h (f (result (run h m w))) (final (run h m w)))) ->
  polls_within bound (trace (run h (bind m f) w)).
Proof.
  intros Hq Hp. unfold polls_within in *. rewrite run_bind. cbn [trace].
  rewrite sleeps_app, (sleepless_trace _ Hq). exact Hp.
Qed.

Lemma polls_within_sleepless {A} (p : prog A) w bound :
  always sleepless p -> polls_within bound (trace (run h p w)).
Proof.
  intros Hp. unfold polls_within.
  rewrite (sleepless_trace _ (always_run sleepless h p w Hp)). left. reflexivity.
Qed.

Lemma sleepless_call {X} (e : event X) w :
  (forall x, sleepless (Call e x)) -> Forall sleepless (trace (run h (call_ e) w)).
Proof. intros Hq. rewrite run_call. repeat constructor; apply Hq. Qed.

Lemma save_and_return_sleepless i absPath r (res : option (option error)) :
  always sleepless (bind (saveRecordOf i absPath r) (fun _ => Ret res)).
Proof. apply always_bind; [apply saveRecord_sleepless | intros; exact I]. Qed.

Lemma stopLoop_polls i absPath pid proc deadline :
  forall fuel w,
    polls_within (deadline - clk w)
      (trace (run h (stopLoopOf i fuel absPath pid proc deadline) w)).
Proof.
  induction fuel as [| fuel IH]; intros w.
  { destruct i; left; reflexivity. }
  rewrite stopLoop_unfold.
  unfold polls_within. rewrite run_bind, run_call. cbn [result final trace].
  pose proof (clk_now h clk Hclock w) as [Hnow_lo Hnow_hi].
  set (now := fst (h _ Now w)) in *. set (w1 := snd (h _ Now w)) in *.
  rewrite sleeps_app. change (sleeps [Call Now now]) with (@nil Duration). cbn [app].
  destruct (Before now deadline) eqn:Hbefore.
  - rewrite run_bind. cbn [result final trace].
    pose proof (clock_run h clk (isPidAliveOf i pid) w1 Hclock) as Hprobe_clk.
    rewrite sleeps_app,
      (sleepless_trace _ (always_run sleepless h _ w1 (isPidAlive_sleepless i pid))).
    cbn [app].
    set (w2 := final (run h (isPidAliveOf i pid) w1)) in *.
    destruct (result (run h (isPidAliveOf i pid) w1)); cbn [negb].
    + rewrite run_bind, run_call. cbn [result final trace].
      pose proof (clk_sleep h clk Hclock pollInterval w2) as Hsleep.
      set (w3 := snd (h _ (Sleep pollInterval) w2)) in *.
      apply Z.ltb_lt in Hbefore.
      rewrite sleeps_app.
      change (sleeps [Call (Sleep pollInterval) (fst (h _ (Sleep pollInterval) w2))])
        with [pollInterval].
      cbn [app length].
      right. destruct (IH w3) as [Hnone | Hsome].
      * fold w3. rewrite Hnone. cbn [length]. lia.
      * fold w3. pose proof pollInterval_pos. lia.
    + left.
      rewrite run_bind, run_call. cbn [result final trace].
      rewrite sleeps_app. cbn [sleeps omap list_omap sleep_of app].
      apply sleepless_trace, always_run, save_and_return_sleepless.
  - left.
    rewrite run_bind, run_call. cbn [result final trace].
    rewrite sleeps_app. cbn [sleeps omap list_omap sleep_of app].
    rewrite run_bind, run_call. cbn [result final trace].
    rewrite sleeps_app. cbn [sleeps omap list_omap sleep_of app].
    apply sleepless_trace, always_run, save_and_return_sleepless.
Qed.

Lemma polls_within_weaken (bound bound' : Z) tr :
  (bound <= bound')%Z -> polls_within bound tr -> polls_within bound' tr.
Proof. intros Hle [Hnone | Hsome]; [left; exact Hnone | right; lia]. Qed.

Lemma stop_tail_polls i absPath pid fuel w :
  polls_within (gracePeriodOf i)
    (trace (run h (bind (call_ (FindProcess pid)) (fun f =>
              match f with
              | inr e =>
                  bind (saveRecordOf i absPath
                          (setLastError e (setState StateFailed zeroRecord)))
                       (fun _ => Ret (Some (Some e)))
              | inl proc =>
                  bind (call_ (ProcSignal proc SIGTERM)) (fun _ =>
                    bind (call_ Now) (fun now =>
                      stopLoopOf i fuel absPath pid proc (Add now (gracePeriodOf i))))
              end)) w)).
Proof.
  apply polls_within_bind; [apply sleepless_call; intros; reflexivity |].
  destruct (result (run h (call_ (FindProcess pid)) w)) as [proc | e].
  - apply polls_within_bind; [apply sleepless_call; intros; reflexivity |].
    apply polls_within_bind; [apply sleepless_call; intros; reflexivity |].
    rewrite !run_call. cbn [result final].
    match goal with
    | |- context [h _ Now ?w'] => pose proof (clk_now h clk Hclock w') as [_ Hhi]
    end.
    eapply polls_within_weaken; [| apply stopLoop_polls]. unfold Add. lia.
  - apply polls_within_sleepless, save_and_return_sleepless.
Qed.

Lemma Stop_polls i fuel path w :
  polls_within (gracePeriodOf i) (trace (run h (StopOf i fuel path) w)).
Proof.
  destruct i as [c | c]; unfold StopOf, Configurable.Stop, Basic.Stop.
  - apply polls_within_bind; [apply sleepless_call; intros; reflexivity |].
    destruct (result (run h (call_ (Abs path)) w)) as [absPath | e];
      [| left; reflexivity].
    apply polls_within_bind;
      [apply always_run, (loadRecord_sleepless (withOptions c)) |].
    destruct (result (run h (Configurable.loadRecord c absPath) _)) as [rec [e |]];
      [left; reflexivity |].
    apply polls_within_bind.
    { apply always_run. unfold Configurable.pidSetAndAlive.
      destruct (Z.eqb (PID rec) 0); [exact I | apply (isPidAlive_sleepless (withOptions c))]. }
    destruct (result (run h (Configurable.pidSetAndAlive (PID rec)) _)); cbn [negb].
    + exact (stop_tail_polls (withOptions c) absPath (PID rec) fuel _).
    + apply polls_within_bind; [apply sleepless_call; intros; reflexivity |].
      apply polls_within_sleepless, (save_and_return_sleepless (withOptions c)).
  - apply polls_within_bind; [apply sleepless_call; intros; reflexivity |].
    destruct (result (run h (call_ (Abs path)) w)) as [absPath | e];
      [| left; reflexivity].
    apply polls_within_bind;
      [apply always_run, (loadRecord_sleepless (plain c)) |].
    destruct (result (run h (Basic.loadRecord c absPath) _)) as [rec err].
    apply polls_within_bind.
    { apply always_run. unfold Basic.pidSetAndAlive.
      destruct (Z.eqb (PID rec) 0); [exact I | apply (isPidAlive_sleepless (plain c))]. }
    destruct (result (run h (Basic.pidSetAndAlive (PID rec)) _)); cbn [negb].
    + exact (stop_tail_polls (plain c) absPath (PID rec) fuel _).
    + apply polls_within_sleepless, (save_and_return_sleepless (plain c)).
Qed.

End StopPolling.

(** X10. Stop launches nothing, opens and closes no file, takes no lock
    and sleeps only the poll interval.  Through the process handle it
    sends nothing, or one termination request, or one termination request
    followed by one forced kill of the same handle; and it sends the
    forced kill only in a run in which every liveness probe was answered
    alive. *)
Theorem Stop_signals :
  forall (J : Json) (W : Type) (h : handler W) (i : Impl) (fuel : nat)
         (path : string) (w : W),
    stop_sends i (trace (run h (StopOf i fuel path) w)).
Proof.
  intros J W h i fuel path w.
  exact (all_runs_run h _ _ w (Stop_sends i fuel path)).
Qed.

(** X11. With a clock that does not run backwards, the sleeps of Stop, all
    but the last, fit in the grace period: Stop sleeps at most once more
    than the grace period holds poll intervals. *)
Theorem Stop_polls_within_grace_period :
  forall (J : Json) (W : Type) (h : handler W) (clk : W -> Z) (i : Impl)
         (fuel : nat) (path : string) (w : W),
    ClockLaws h clk ->
    let n := Z.of_nat (length (sleeps (trace (run h (StopOf i fuel path) w)))) in
    n = 0%Z \/ ((n - 1) * pollInterval < gracePeriodOf i)%Z.
Proof.
  intros J W h clk i fuel path w Hclock n.
  destruct (Stop_polls h clk Hclock i fuel path w) as [Hnone | Hsome].
  - left. subst n. rewrite Hnone. reflexivity.
  - right. exact Hsome.
Qed.

Lemma Stop_polls_within_grace_period_witness :
  let i := withOptions (Configurable.mkController (1 * Second) [] true) in
  let w := Sim.withStored (dbKey "/inst") (Sim.SRecord (Sim.runningRecord 100 5))
             (Sim.withProcess 100 (Sim.mkProc false true) (Sim.boot 1000)) in
  let n := Z.of_nat (length (sleeps (trace (run Sim.os (StopOf i 51 "/inst") w)))) in
  n = 5%Z /\ (n = 0%Z \/ ((n - 1) * pollInterval < gracePeriodOf i)%Z).
Proof.
  intros i w n. split; [vm_compute; reflexivity |].
  exact (Stop_polls_within_grace_period Sim.json Sim.World Sim.os Sim.clock i 51 "/inst" w
           Sim_clock_laws).
Defined.

(** ** Keys *)

Section Keys.
Context `{Json}.

Lemma dbKey_inj (p q : string) : dbKey p = dbKey q -> p = q.
Proof.
  unfold dbKey. generalize "instancecontrol:". intros s.
  induction s as [| a s IH]; cbn; intros Heq; [exact Heq |].
  injection Heq as Heq. exact (IH Heq).
Qed.

Lemma saveRecord_runs i path r :
  all_runs (saveRecordOf i path r)
    (fun tr res =>
       match writes tr with
       | [] => exists e, res = Some e /\ abs_failures tr = [e]
       | [(k, r', a)] =>
           k = dbKey (keyed_path i path tr) /\
           (exists t, r' = setUpdatedAt t r) /\
           res = a /\ abs_failures tr = []
       | _ => False
       end).
Proof.
  destruct i as [c | c];
    unfold saveRecordOf, Configurable.saveRecord, Basic.saveRecord,
      Configurable.formatDBKey, Basic.dbKeyFor, keyed_path;
    walk_runs; cbn;
    first [ eexists; split; reflexivity
          | repeat split; try reflexivity; eexists; reflexivity ].
Qed.

Lemma loadRecord_runs i path :
  all_runs (loadRecordOf i path)
    (fun tr res =>
       writes tr = [] /\ probes tr = [] /\
       match gets tr with
       | [] => exists e, res = (zeroRecord, Some e) /\ abs_failures tr = [e]
       | [(k, _)] => k = dbKey (keyed_path i path tr) /\ abs_failures tr = []
       | _ => False
       end).
Proof.
  destruct i as [c | c];
    unfold loadRecordOf, Configurable.loadRecord, Basic.loadRecord,
      Configurable.formatDBKey, Basic.dbKeyFor, keyed_path;
    walk_runs; cbn; (split; [reflexivity |]); (split; [reflexivity |]);
    first [ eexists; split; reflexivity | split; reflexivity ].
Qed.

End Keys.

(** X12. saveRecord either cannot form the key, and then returns the
    error of filepath.Abs without calling Set, or calls Set exactly once,
    under the key "instancecontrol:" followed by the normalized path, with
    the record it was given changed in updated_at only, and returns the
    answer of Set unchanged. *)
Theorem saveRecord_behaviour :
  forall (J : Json) (W : Type) (h : handler W) (i : Impl) (path : string)
         (r : InstanceRecord) (w : W),
    let o := run h (saveRecordOf i path r) w in
    match writes (trace o) with
    | [] => exists e, result o = Some e /\ abs_failures (trace o) = [e]
    | [(k, r', a)] =>
        k = dbKey (keyed_path i path (trace o)) /\
        (exists t, r' = setUpdatedAt t r) /\
        result o = a /\ abs_failures (trace o) = []
    | _ => False
    end.
Proof.
  intros J W h i path r w.
  exact (all_runs_run h _ _ w (saveRecord_runs i path r)).
Qed.

(** X13. loadRecord never writes and never probes a process.  It either
    cannot form the key, and then returns the zero record with the error
    of filepath.Abs without calling Get, or calls Get exactly once, under
    the key saveRecord uses for the same normalized path; and two
    different normalized paths never have the same key. *)
Theorem loadRecord_behaviour :
  forall (J : Json) (W : Type) (h : handler W) (i : Impl) (path : string) (w : W),
    let o := run h (loadRecordOf i path) w in
    writes (trace o) = [] /\ probes (trace o) = [] /\
    match gets (trace o) with
    | [] => exists e, result o = (zeroRecord, Some e) /\ abs_failures (trace o) = [e]
    | [(k, _)] => k = dbKey (keyed_path i path (trace o)) /\ abs_failures (trace o) = []
    | _ => False
    end /\
    (forall p q, dbKey p = dbKey q -> p = q).
Proof.
  intros J W h i path w o.
  destruct (all_runs_run h _ _ w (loadRecord_runs i path)) as (Hw & Hp & Hg).
  split; [exact Hw |]. split; [exact Hp |]. split; [exact Hg | exact dbKey_inj].
Qed.

(** ** Creating the log directory *)

Section LogDirectory.
Context `{Json}.

Ltac unfold_Start :=
  unfold StartOf, Configurable.Start, Configurable.pidSetAndAlive, Configurable.loadRecord,
    Configurable.saveRecord, Configurable.isPidAlive, Configurable.formatDBKey,
    Basic.Start, Basic.pidSetAndAlive, Basic.loadRecord,
    Basic.saveRecord, Basic.isPidAlive, Basic.dbKeyFor.

Ltac the_mkdir :=
  match goal with
  | Hin : In _ (mkdir_failures _) |- _ =>
      cbn in Hin; repeat (destruct Hin as [Hin | Hin]);
      try contradiction; try discriminate Hin; subst
  end.

Lemma Configurable_Start_mkdir_runs c path cmd :
  all_runs (Configurable.Start c path cmd)
    (fun tr res => forall e,
       In e (mkdir_failures tr) ->
       res = Some e /\ writes tr = [] /\ spawns tr = [] /\ opens tr = [] /\
       launches tr = []).
Proof. unfold_Start; walk_runs; the_mkdir; repeat split; reflexivity. Qed.

Lemma Basic_Start_mkdir_runs c path cmd :
  all_runs (Basic.Start c path cmd)
    (fun tr res => forall e,
       In e (mkdir_failures tr) ->
       length (opens tr) = 2%nat /\ length (spawns tr) = 1%nat).
Proof. unfold_Start; walk_runs; the_mkdir; split; reflexivity. Qed.

End LogDirectory.

(** X14. When the log directory cannot be created, Start of the version
    with options returns that error before it opens a file, writes a
    record or launches anything; Start of the basic version ignores the
    error, opens both log files and goes on to launch the command. *)
Theorem Start_log_directory_failure :
  forall (J : Json) (W : Type) (h : handler W) (path : string) (cmd : list string)
         (w : W) (e : error),
    (forall c,
       let o := run h (Configurable.Start c path cmd) w in
       In e (mkdir_failures (trace o)) ->
       result o = Some e /\ writes (trace o) = [] /\ spawns (trace o) = [] /\
       opens (trace o) = [] /\ launches (trace o) = []) /\
    (forall c,
       let o := run h (Basic.Start c path cmd) w in
       In e (mkdir_failures (trace o)) ->
       length (opens (trace o)) = 2%nat /\ length (spawns (trace o)) = 1%nat).
Proof.
  intros J W h path cmd w e. split; intros c.
  - exact (all_runs_run h _ _ w (Configurable_Start_mkdir_runs c path cmd) e).
  - exact (all_runs_run h _ _ w (Basic_Start_mkdir_runs c path cmd) e).
Qed.

Lemma Start_log_directory_failure_witness :
  let e := "mkdir: read-only file system" in
  let o := run readOnlyOs (Configurable.Start Configurable.NewController "/inst" ["sh"])
               (Sim.boot 1000) in
  let o' := run readOnlyOs (Basic.Start Basic.NewController "/inst" ["sh"])
                (Sim.boot 1000) in
  (In e (mkdir_failures (trace o)) /\
   result o = Some e /\ writes (trace o) = [] /\ spawns (trace o) = [] /\
   opens (trace o) = [] /\ launches (trace o) = []) /\
  (In e (mkdir_failures (trace o')) /\
   length (opens (trace o')) = 2%nat /\ length (spawns (trace o')) = 1%nat).
Proof.
  intros e o o'.
  pose proof (Start_log_directory_failure Sim.json Sim.World readOnlyOs "/inst" ["sh"]
                (Sim.boot 1000) e) as [Hopt Hbasic].
  split.
  - assert (Hin : In e (mkdir_failures (trace o))) by (vm_compute; left; reflexivity).
    split; [exact Hin | exact (Hopt Configurable.NewController Hin)].
  - assert (Hin : In e (mkdir_failures (trace o'))) by (vm_compute; left; reflexivity).
    split; [exact Hin | exact (Hbasic Basic.NewController Hin)].
Defined.

(** ** Options *)

Section OptionFacts.
Variable DB : Type.
Variable mineDBAdapter : DB.

Lemma NewController_snoc (opts : list (Options.Option DB)) (o : Options.Option DB) :
  Options.NewController DB mineDBAdapter (opts ++ [o])%list =
  o (Options.NewController DB mineDBAdapter opts).
Proof. unfold Options.NewController. rewrite fold_left_app. reflexivity. Qed.

End OptionFacts.

(** X15. NewController without options has a grace period of ten seconds,
    no default command, normalizes paths and uses the mine_db adapter.
    Options apply in order: an option given last sets its own field,
    whatever came before, and leaves the other three fields as the
    earlier options made them. *)
Theorem NewController_options :
  forall (DB : Type) (mineDBAdapter : DB) (opts : list (Options.Option DB)),
    let new := Options.NewController DB mineDBAdapter in
    let before := new opts in
    new [] = Options.mkController DB (Configurable.mkController (10 * Second) [] true)
               mineDBAdapter /\
    (forall d,
       new (opts ++ [Options.WithGracePeriod DB d])%list =
       Options.mkController DB
         (Configurable.mkController d
            (Configurable.defaultCmd (Options.data DB before))
            (Configurable.useAbsPaths (Options.data DB before)))
         (Options.db DB before)) /\
    (forall cmd,
       new (opts ++ [Options.WithDefaultCmd DB cmd])%list =
       Options.mkController DB
         (Configurable.mkController
            (Configurable.gracePeriod (Options.data DB before)) cmd
            (Configurable.useAbsPaths (Options.data DB before)))
         (Options.db DB before)) /\
    (forall use,
       new (opts ++ [Options.WithUseAbsPaths DB use])%list =
       Options.mkController DB
         (Configurable.mkController
            (Configurable.gracePeriod (Options.data DB before))
            (Configurable.defaultCmd (Options.data DB before)) use)
         (Options.db DB before)) /\
    (forall d,
       new (opts ++ [Options.WithDB DB d])%list =
       Options.mkController DB (Options.data DB before) d).
Proof.
  intros DB mineDBAdapter opts new before. subst new before.
  split; [reflexivity |].
  repeat split; intros; rewrite NewController_snoc; reflexivity.
Qed.

(** ** The in-memory store *)

Section FakeStore.
Context `{Json}.


Lemma serve_store_laws {W} (inner : handler W) :
  StoreLaws (FakeDB.serve inner) (fun s k => fst s !! k).
Proof.
  split.
  - intros k s v Hk. cbn. unfold FakeDB.Get. rewrite Hk. reflexivity.
  - intros k r s _. cbn. apply lookup_insert_eq.
  - intros X e s Hw. destruct e; try discriminate Hw; reflexivity.
Qed.


End FakeStore.



(** ** What the store holds after an operation *)

Section LastWrite.
Context `{Json}.
Context {W : Type} (h : handler W) (content : W -> string -> option value).
Hypothesis Hstable : abs_stable h.
Hypothesis Hstore : StoreLaws h content.

Lemma is_write_of {X} (e : event X) (x : X) :
  write_of (Call e x) = None -> is_write e = false.
Proof. destruct e; cbn; intros Hw; try reflexivity. discriminate Hw. Qed.

Lemma no_write_keeps_content {A} (p : prog A) w :
  writes (trace (run h p w)) = [] ->
  content (final (run h p w)) = content w.
Proof.
  revert w. induction p as [a | X e k IH]; intros w; cbn [run trace final]; [reflexivity |].
  rewrite writes_cons.
  destruct (write_of (Call e (fst (h X e w)))) as [x |] eqn:Hw; [discriminate |].
  intros Hrest. rewrite (IH _ _ Hrest).
  apply (store_frame h content Hstore). exact (is_write_of e _ Hw).
Qed.

Lemma last_write_is_held {A} (p : prog A) w k r :
  last (writes (trace (run h p w))) = Some (k, r, None) ->
  content (final (run h p w)) k = Some (box r).
Proof.
  revert w. induction p as [a | X e c IH]; intros w; cbn [run trace final];
    [discriminate |].
  rewrite writes_cons.
  destruct (writes (trace (run h (c (fst (h X e w))) (snd (h X e w))))) as [| x rest] eqn:Hrest.
  - destruct e; cbn [write_of]; try discriminate.
    cbn [last]. intros Hlast. injection Hlast as <- <- Hans.
    rewrite (no_write_keeps_content _ _ Hrest).
    apply (store_set h content Hstore). exact Hans.
  - intros Hlast. apply IH. rewrite Hrest.
    destruct (write_of (Call e (fst (h X e w)))) as [y |]; [| exact Hlast].
    rewrite last_cons_cons in Hlast. exact Hlast.
Qed.

Lemma abs_calls_cons (c : call) (tr : list call) :
  abs_calls (c :: tr) = match abs_call_of c with
                        | Some x => x :: abs_calls tr
                        | None => abs_calls tr
                        end.
Proof. reflexivity. Qed.

(** Every answer of [filepath.Abs] in a trace is one the handler gave. *)
Lemma abs_calls_answered {A} (p : prog A) w q a :
  In (q, a) (abs_calls (trace (run h p w))) -> exists w', a = fst (h _ (Abs q) w').
Proof.
  revert w. induction p as [x | X e k IH]; intros w; cbn [run trace]; [intros [] |].
  rewrite abs_calls_cons.
  destruct e; cbn [abs_call_of]; try apply IH.
  intros [Hhd | Htl]; [| exact (IH _ _ Htl)].
  injection Hhd as <- <-. exists w. reflexivity.
Qed.

(** With a stable normalization the key formed for a normalized path is
    the prefix followed by that path. *)
Lemma key_for_stable {A} (p : prog A) w p0 w0 absPath k :
  fst (h _ (Abs p0) w0) = inl absPath ->
  key_for absPath (trace (run h p w)) k -> k = dbKey absPath.
Proof.
  intros Habs [Hk | (q & Hin & Hk)]; [exact Hk |].
  destruct (abs_calls_answered p w absPath (inl q) Hin) as (w' & Hq).
  rewrite (Hstable p0 absPath w0 Habs w') in Hq. injection Hq as ->. exact Hk.
Qed.

Lemma last_write_at_key {A} (p : prog A) w p0 w0 absPath k r :
  fst (h _ (Abs p0) w0) = inl absPath ->
  key_for absPath (trace (run h p w)) k ->
  last (writes (trace (run h p w))) = Some (k, r, None) ->
  k = dbKey absPath /\ content (final (run h p w)) (dbKey absPath) = Some (box r).
Proof.
  intros Habs Hkey Hlast.
  pose proof (key_for_stable p w p0 w0 absPath k Habs Hkey) as ->.
  split; [reflexivity |]. exact (last_write_is_held p w _ _ Hlast).
Qed.

End LastWrite.

(** Closes a leaf whose trace has no [Set], or whose last [Set] failed. *)
Ltac no_last_write :=
  match goal with
  | Hl : last (writes _) = Some _ |- _ => cbn in Hl; discriminate Hl
  end.

Ltac the_last_write :=
  match goal with
  | Hl : last (writes _) = Some _ |- _ => cbn in Hl; injection Hl as ? ? ?; subst
  end.

Ltac the_key :=
  first [ left; reflexivity
        | right; eexists; (split; [| reflexivity]); cbn; auto 10 ].

Section LastRecords.
Context `{Json}.

(** The last record of [Start], when its [Set] succeeded: written under a
    key formed for the normalized target path, and the running record of
    the launched process or the failed record of the launch. *)
Lemma Start_last_write_runs i path cmd :
  all_runs (StartOf i path cmd)
    (fun tr _ => forall k r,
       abs_failures tr = [] ->
       last (writes tr) = Some (k, r, None) ->
       exists absPath,
         hd_error (abs_calls tr) = Some (path, inl absPath) /\
         key_for absPath tr k /\
         ((exists c pid started t,
             spawns tr = [(c, inl pid)] /\
             r = setUpdatedAt t
                   (setStartedAt started (setPID pid (setState StateRunning zeroRecord)))) \/
          (exists c e t, spawns tr = [(c, inr e)] /\ r = failedWith e t))).
Proof.
  destruct i as [c | c];
    unfold StartOf, Configurable.Start, Configurable.pidSetAndAlive, Configurable.loadRecord,
      Configurable.saveRecord, Configurable.isPidAlive, Configurable.formatDBKey,
      Basic.Start, Basic.pidSetAndAlive, Basic.loadRecord,
      Basic.saveRecord, Basic.isPidAlive, Basic.dbKeyFor;
    walk_runs;
    first [ no_abs_failure
          | no_last_write
          | the_last_write;
            eexists; split; [reflexivity |]; split; [the_key |];
            first [ left; do 4 eexists; split; reflexivity
                  | right; do 3 eexists; split; reflexivity ] ].
Qed.

(** The record of the watch task: written under a key formed for its
    path, and decided by the answer of the wait. *)
Lemma watch_last_write_runs i absPath pid out err :
  all_runs (watchOf i absPath pid out err)
    (fun tr _ => forall k r a,
       last (writes tr) = Some (k, r, a) ->
       key_for absPath tr k /\
       exists st t,
         waits tr = [(pid, st)] /\
         match st with
         | Some e => r = failedWith e t
         | None => exists stopped, r = stoppedAt stopped t
         end).
Proof.
  destruct i as [c | c];
    unfold watchOf, Configurable.watchProcess, Basic.watch, Configurable.saveRecord,
      Basic.saveRecord, Configurable.formatDBKey, Basic.dbKeyFor;
    walk_runs;
    first [ no_last_write
          | the_last_write;
            split; [the_key |]; do 2 eexists; split; [reflexivity |];
            first [ reflexivity | eexists; reflexivity ] ].
Qed.

End LastRecords.

Section StoreAfter.
Context `{Json}.
Context {W : Type} (h : handler W) (clk : W -> Z) (content : W -> string -> option value).
Hypothesis Hstable : abs_stable h.
Hypothesis Hclock : ClockLaws h clk.
Hypothesis Hstore : StoreLaws h content.

Lemma Start_leaves i path cmd w absPath k r :
  fst (h _ (Abs path) w) = inl absPath ->
  let o := run h (StartOf i path cmd) w in
  abs_failures (trace o) = [] ->
  last (writes (trace o)) = Some (k, r, None) ->
  k = dbKey absPath /\ content (final o) (dbKey absPath) = Some (box r) /\
  ((exists c pid started t,
      spawns (trace o) = [(c, inl pid)] /\
      r = setUpdatedAt t
            (setStartedAt started (setPID pid (setState StateRunning zeroRecord)))) \/
   (exists c e t, spawns (trace o) = [(c, inr e)] /\ r = failedWith e t)).
Proof.
  intros Habs o Hnone Hlast.
  destruct (all_runs_run h _ _ w (Start_last_write_runs i path cmd) k r Hnone Hlast)
    as (q & Hfirst & Hkey & Hrec).
  rewrite Start_first_call, Habs in Hfirst. injection Hfirst as <-.
  destruct (last_write_at_key h content Hstable Hstore _ w path w absPath k r Habs Hkey Hlast)
    as [Hk Hheld].
  split; [exact Hk |]. split; [exact Hheld | exact Hrec].
Qed.

Lemma watch_leaves i p0 w0 absPath pid out err w k r :
  fst (h _ (Abs p0) w0) = inl absPath ->
  let o := run h (watchOf i absPath pid out err) w in
  last (writes (trace o)) = Some (k, r, None) ->
  k = dbKey absPath /\ content (final o) (dbKey absPath) = Some (box r) /\
  exists st t,
    waits (trace o) = [(pid, st)] /\
    match st with
    | Some e => r = failedWith e t
    | None => exists stopped, r = stoppedAt stopped t
    end.
Proof.
  intros Habs o Hlast.
  destruct (all_runs_run h _ _ w (watch_last_write_runs i absPath pid out err) k r None Hlast)
    as (Hkey & Hrec).
  destruct (last_write_at_key h content Hstable Hstore _ w p0 w0 absPath k r Habs Hkey Hlast)
    as [Hk Hheld].
  split; [exact Hk |]. split; [exact Hheld | exact Hrec].
Qed.

Lemma Stop_leaves i path w fuel absPath k r :
  (1 <= fuel)%nat ->
  (gracePeriodOf i <= (Z.of_nat fuel - 1) * pollInterval)%Z ->
  fst (h _ (Abs path) w) = inl absPath ->
  let o := run h (StopOf i fuel path) w in
  last (writes (trace o)) = Some (k, r, None) ->
  k = dbKey absPath /\ content (final o) (dbKey absPath) = Some (box r) /\
  ((result o = Some None /\ exists t t', r = stoppedAt t t') \/
   (exists e t, result o = Some (Some e) /\ r = failedWith e t)).
Proof.
  intros Hfuel Hgrace Habs o Hlast.
  pose proof (last_write_is_held h content Hstore _ w _ _ Hlast) as Hheld.
  pose proof (Stop_run h clk Hstable Hclock i path w fuel Hfuel Hgrace) as Hout.
  fold o in Hout. unfold stop_outcome in Hout.
  destruct (stop_early_error h i path w) as [e |].
  { destruct Hout as (_ & Hw & _). rewrite Hw in Hlast. discriminate Hlast. }
  destruct Hout as (q & Hq & res & Hres & Hcase).
  rewrite Habs in Hq. injection Hq as <-.
  destruct (lookup_failures (trace o)) as [| e rest].
  - destruct Hcase as (-> & t & t' & ans & Hw).
    rewrite Hw in Hlast. injection Hlast as <- <- ->.
    split; [reflexivity |]. split; [exact Hheld |].
    left. split; [exact Hres |]. exists t, t'. reflexivity.
  - destruct Hcase as (_ & -> & t' & ans & Hw).
    rewrite Hw in Hlast. injection Hlast as <- <- ->.
    split; [reflexivity |]. split; [exact Hheld |].
    right. exists e, t'. split; [exact Hres | reflexivity].
Qed.

(** A [Stop] that returned success and whose [Set] succeeded leaves a
    stopped record under the key of the path. *)
Lemma Stop_success_leaves i path w fuel absPath :
  (1 <= fuel)%nat ->
  (gracePeriodOf i <= (Z.of_nat fuel - 1) * pollInterval)%Z ->
  fst (h _ (Abs path) w) = inl absPath ->
  let o := run h (StopOf i fuel path) w in
  result o = Some None ->
  (forall k r a, last (writes (trace o)) = Some (k, r, a) -> a = None) ->
  exists t t', content (final o) (dbKey absPath) = Some (box (stoppedAt t t')).
Proof.
  intros Hfuel Hgrace Habs o Hres Hset.
  pose proof (Stop_run h clk Hstable Hclock i path w fuel Hfuel Hgrace) as Hout.
  fold o in Hout. unfold stop_outcome in Hout.
  destruct (stop_early_error h i path w) as [e |].
  { destruct Hout as (Hres' & _). rewrite Hres in Hres'. discriminate Hres'. }
  destruct Hout as (q & Hq & res & Hres' & Hcase).
  rewrite Habs in Hq. injection Hq as <-.
  rewrite Hres in Hres'. injection Hres' as <-.
  destruct (lookup_failures (trace o)) as [| e rest].
  2: { destruct Hcase as (_ & Hbad & _). discriminate Hbad. }
  destruct Hcase as (_ & t & t' & ans & Hw).
  assert (Hans : ans = None)
    by (apply (Hset (dbKey absPath) (stoppedAt t t')); rewrite Hw; reflexivity).
  subst ans. exists t, t'.
  apply (last_write_is_held h content Hstore). fold o. rewrite Hw. reflexivity.
Qed.

(** What [loadRecord] and [GetState] return when the store holds a
    record without a pid under the key of the path. *)
Lemma loadRecord_returns_held i p w0 absPath rec w :
  fst (h _ (Abs p) w0) = inl absPath ->
  content w (dbKey absPath) = Some (box rec) ->
  json_roundtrips rec ->
  result (run h (loadRecordOf i absPath) w) = (rec, None).
Proof.
  intros Habs Hheld (b & Hm & Hu).
  pose proof (Hstable p absPath w0 Habs w) as Hagain.
  assert (Hframe : content (snd (h _ (Abs absPath) w)) (dbKey absPath) = Some (box rec)).
  { rewrite (store_frame h content Hstore _ (Abs absPath) w eq_refl). exact Hheld. }
  destruct i as [c | c];
    unfold loadRecordOf, Configurable.loadRecord, Basic.loadRecord,
      Configurable.formatDBKey, Basic.dbKeyFor.
  - destruct (Configurable.useAbsPaths c); cbn.
    + rewrite Hagain. cbn. rewrite (store_get h content Hstore _ _ _ Hframe).
      rewrite Hm, Hu. reflexivity.
    + rewrite (store_get h content Hstore _ _ _ Hheld). rewrite Hm, Hu. reflexivity.
  - cbn. rewrite Hagain. cbn. rewrite (store_get h content Hstore _ _ _ Hframe).
    rewrite Hm, Hu. reflexivity.
Qed.

Lemma GetState_returns_held i path w absPath rec :
  fst (h _ (Abs path) w) = inl absPath ->
  content w (dbKey absPath) = Some (box rec) ->
  json_roundtrips rec ->
  PID rec = 0%Z ->
  result (run h (GetStateOf i path) w) = (rec, None) /\
  writes (trace (run h (GetStateOf i path) w)) = [].
Proof.
  intros Habs Hheld Hjson Hpid.
  assert (Hframe : content (snd (h _ (Abs path) w)) (dbKey absPath) = Some (box rec)).
  { rewrite (store_frame h content Hstore _ (Abs path) w eq_refl). exact Hheld. }
  pose proof (loadRecord_returns_held i path w absPath rec _ Habs Hframe Hjson) as Hload.
  pose proof (loadRecord_trace_quiet h i absPath (snd (h _ (Abs path) w))) as (Hlw & _).
  destruct i as [c | c]; unfold GetStateOf, Configurable.GetState, Basic.GetState;
    cbn [loadRecordOf] in *;
    rewrite run_bind, run_call; cbn [result final trace]; rewrite Habs;
    rewrite run_bind; cbn [result final trace]; rewrite Hload;
    rewrite run_bind; cbn [result final trace]; rewrite Hpid;
    cbn [Z.eqb run result final trace];
    split_trace; rewrite Hlw; split; reflexivity.
Qed.

End StoreAfter.

(** X17. Where the last record of an operation ends up, with a store that
    keeps what it is given and a path normalization that is stable.  Let
    absPath be the answer of filepath.Abs on the target path.  When the
    last Set of the operation succeeded, it was made under
    "instancecontrol:" followed by absPath, the store holds its record
    there when the operation returns, and that record is: after Start
    (no normalization failed), the running record with the pid that
    cmd.Start returned, or the failed record with the error of
    cmd.Start; after Stop, the stopped record when Stop returns success
    and the failed record with the error of the handle lookup when it
    returns that error; after the watch task of absPath, the failed
    record with the error of the wait, or the stopped record when the
    wait returned none. *)
Theorem store_holds_last_write :
  forall (J : Json) (W : Type) (h : handler W) (clk : W -> Z)
         (content : W -> string -> option value)
         (i : Impl) (path absPath : string) (w : W),
    abs_stable h ->
    ClockLaws h clk ->
    StoreLaws h content ->
    fst (h _ (Abs path) w) = inl absPath ->
    (forall cmd k r,
       let o := run h (StartOf i path cmd) w in
       abs_failures (trace o) = [] ->
       last (writes (trace o)) = Some (k, r, None) ->
       k = dbKey absPath /\ content (final o) (dbKey absPath) = Some (box r) /\
       ((exists c pid started t,
           spawns (trace o) = [(c, inl pid)] /\
           r = setUpdatedAt t
                 (setStartedAt started (setPID pid (setState StateRunning zeroRecord)))) \/
        (exists c e t, spawns (trace o) = [(c, inr e)] /\ r = failedWith e t))) /\
    (forall fuel k r,
       (1 <= fuel)%nat ->
       (gracePeriodOf i <= (Z.of_nat fuel - 1) * pollInterval)%Z ->
       let o := run h (StopOf i fuel path) w in
       last (writes (trace o)) = Some (k, r, None) ->
       k = dbKey absPath /\ content (final o) (dbKey absPath) = Some (box r) /\
       ((result o = Some None /\ exists t t', r = stoppedAt t t') \/
        (exists e t, result o = Some (Some e) /\ r = failedWith e t))) /\
    (forall pid out err w1 k r,
       let o := run h (watchOf i absPath pid out err) w1 in
       last (writes (trace o)) = Some (k, r, None) ->
       k = dbKey absPath /\ content (final o) (dbKey absPath) = Some (box r) /\
       exists st t,
         waits (trace o) = [(pid, st)] /\
         match st with
         | Some e => r = failedWith e t
         | None => exists stopped, r = stoppedAt stopped t
         end).
Proof.
  intros J W h clk content i path absPath w Hstable Hclock Hstore Habs.
  split; [| split].
  - intros cmd k r. exact (Start_leaves h content Hstable Hstore i path cmd w absPath k r Habs).
  - intros fuel k r Hfuel Hgrace.
    exact (Stop_leaves h clk content Hstable Hclock Hstore i path w fuel absPath k r
             Hfuel Hgrace Habs).
  - intros pid out err w1 k r.
    exact (watch_leaves h content Hstable Hstore i path w absPath pid out err w1 k r Habs).
Qed.

Lemma store_holds_last_write_witness :
  let i := withOptions Configurable.NewController in
  let w := Sim.boot 1000 in
  let o := run Sim.os (StartOf i "inst" ["run.sh"]) w in
  let running := mkRecord StateRunning 100 1002 0 1003 "" in
  fst (Sim.os _ (Abs "inst") w) = inl "/srv/inst" /\
  abs_failures (trace o) = [] /\
  last (writes (trace o)) = Some (dbKey "/srv/inst", running, None) /\
  Sim.content (final o) (dbKey "/srv/inst") = Some (Sim.SRecord running).
Proof.
  intros i w o running.
  assert (Habs : fst (Sim.os _ (Abs "inst") w) = inl "/srv/inst") by reflexivity.
  assert (Hnone : abs_failures (trace o) = []) by (vm_compute; reflexivity).
  assert (Hlast : last (writes (trace o)) = Some (dbKey "/srv/inst", running, None))
    by (vm_compute; reflexivity).
  destruct (store_holds_last_write Sim.json Sim.World Sim.os Sim.clock Sim.content i
              "inst" "/srv/inst" w Sim_abs_stable Sim_clock_laws Sim_store_laws Habs)
    as (Hstart & _ & _).
  destruct (Hstart ["run.sh"] (dbKey "/srv/inst") running Hnone Hlast) as (_ & Hheld & _).
  split; [exact Habs |]. split; [exact Hnone |]. split; [exact Hlast | exact Hheld].
Defined.

(** ** Stop, the watch task, and GetState *)

Lemma killedOs_abs_stable : abs_stable killedOs.
Proof. intros p q w Hq w'. exact (Sim_abs_stable p q w Hq w'). Qed.

Lemma killedOs_clock_laws : ClockLaws killedOs Sim.clock.
Proof.
  split.
  - intros X e w. destruct e; first [exact (clk_mono _ _ Sim_clock_laws _ _ w) | cbn; lia].
  - intros w. exact (clk_now _ _ Sim_clock_laws w).
  - intros d w. exact (clk_sleep _ _ Sim_clock_laws d w).
Qed.

Lemma killedOs_store_laws : StoreLaws killedOs Sim.content.
Proof.
  split.
  - intros k w v. exact (store_get _ _ Sim_store_laws k w v).
  - intros k r w. exact (store_set _ _ Sim_store_laws k r w).
  - intros X e w Hw.
    destruct e; first [exact (store_frame _ _ Sim_store_laws _ _ w Hw) | reflexivity].
Qed.

(** X18. Stop, then GetState, in a process where the watch task of the
    stopped instance may still write: the last writer decides.  With a
    store that keeps what it is given, a stable path normalization and a
    clock that does not run backwards, a Stop that returned success and
    whose Set succeeded leaves a stopped record (pid zero) under the key
    of the path.  A GetState that finds the key as Stop left it (nothing,
    in particular not the watch task, has written it since) returns that
    stopped record without error and without writing, provided the codec
    returns it as stored.  A GetState that finds the key as the watch
    task of the instance left it (its Set succeeded; that is what
    GetState finds when the watch task wrote after Stop) returns the
    record of the watch task instead, again without writing: the failed
    record with the error of the wait (as after a forced kill), or a
    stopped record when the wait returned no error. *)
Theorem Stop_then_GetState :
  forall (J : Json) (W : Type) (h : handler W) (clk : W -> Z)
         (content : W -> string -> option value)
         (i : Impl) (path absPath : string) (w : W) (fuel : nat),
    abs_stable h ->
    ClockLaws h clk ->
    StoreLaws h content ->
    (1 <= fuel)%nat ->
    (gracePeriodOf i <= (Z.of_nat fuel - 1) * pollInterval)%Z ->
    fst (h _ (Abs path) w) = inl absPath ->
    let stopped := run h (StopOf i fuel path) w in
    result stopped = Some None ->
    (forall k r a, last (writes (trace stopped)) = Some (k, r, a) -> a = None) ->
    exists t t',
      content (final stopped) (dbKey absPath) = Some (box (stoppedAt t t')) /\
      (forall w',
         fst (h _ (Abs path) w') = inl absPath ->
         content w' (dbKey absPath) = content (final stopped) (dbKey absPath) ->
         json_roundtrips (stoppedAt t t') ->
         result (run h (GetStateOf i path) w') = (stoppedAt t t', None) /\
         writes (trace (run h (GetStateOf i path) w')) = []) /\
      (forall pid out err w1 k r w',
         let watched := run h (watchOf i absPath pid out err) w1 in
         last (writes (trace watched)) = Some (k, r, None) ->
         fst (h _ (Abs path) w') = inl absPath ->
         content w' (dbKey absPath) = content (final watched) (dbKey absPath) ->
         json_roundtrips r ->
         result (run h (GetStateOf i path) w') = (r, None) /\
         writes (trace (run h (GetStateOf i path) w')) = [] /\
         exists st t'',
           waits (trace watched) = [(pid, st)] /\
           match st with
           | Some e => r = failedWith e t''
           | None => exists s, r = stoppedAt s t''
           end).
Proof.
  intros J W h clk content i path absPath w fuel Hstable Hclock Hstore Hfuel Hgrace Habs
         stopped Hres Hset.
  destruct (Stop_success_leaves h clk content Hstable Hclock Hstore i path w fuel absPath
              Hfuel Hgrace Habs Hres Hset) as (t & t' & Hheld).
  exists t, t'. split; [exact Hheld |]. split.
  - intros w' Habs' Hsame Hjson.
    apply (GetState_returns_held h content Hstable Hstore i path w' absPath);
      [exact Habs' | rewrite Hsame; exact Hheld | exact Hjson | reflexivity].
  - intros pid out err w1 k r w' watched Hlast Habs' Hsame Hjson.
    destruct (watch_leaves h content Hstable Hstore i path w absPath pid out err w1 k r
                Habs Hlast) as (_ & Hwheld & st & t'' & Hwaits & Hrec).
    assert (Hpid : PID r = 0%Z)
      by (destruct st as [e |]; [| destruct Hrec as (s & Hrec)]; rewrite Hrec; reflexivity).
    assert (Hheld' : content w' (dbKey absPath) = Some (box r))
      by (rewrite Hsame; exact Hwheld).
    destruct (GetState_returns_held h content Hstable Hstore i path w' absPath r
                Habs' Hheld' Hjson Hpid) as [Hget Hnow].
    split; [exact Hget |]. split; [exact Hnow |].
    exists st, t''. split; [exact Hwaits | exact Hrec].
Qed.

Lemma Stop_then_GetState_witness :
  let i := plain (Basic.mkController (1 * Second)) in
  let w := Sim.withStored (dbKey "/inst") (Sim.SRecord (Sim.runningRecord 100 5))
             (Sim.withProcess 100 (Sim.mkProc false true) (Sim.boot 1000)) in
  let stopped := run killedOs (StopOf i 7 "/inst") w in
  let watched := run killedOs (watchOf i "/inst" 100 None None) (final stopped) in
  let killed := failedWith "signal: killed" 1000001010 in
  result stopped = Some None /\
  signals (trace stopped) = [(100%Z, SIGTERM); (100%Z, SIGKILL)] /\
  (exists t t',
     result (run killedOs (GetStateOf i "/inst") (final stopped)) = (stoppedAt t t', None)) /\
  last (writes (trace watched)) = Some (dbKey "/inst", killed, None) /\
  result (run killedOs (GetStateOf i "/inst") (final watched)) = (killed, None).
Proof.
  intros i w stopped watched killed.
  assert (Hfuel : (1 <= 7)%nat) by lia.
  assert (Hgrace : (gracePeriodOf i <= (Z.of_nat 7 - 1) * pollInterval)%Z)
    by (vm_compute; discriminate).
  assert (Habs : fst (killedOs _ (Abs "/inst") w) = inl "/inst") by reflexivity.
  assert (Hres : result stopped = Some None) by (vm_compute; reflexivity).
  assert (Hset : forall k r a, last (writes (trace stopped)) = Some (k, r, a) -> a = None).
  { intros k r a Hlast. vm_compute in Hlast. injection Hlast as _ _ <-. reflexivity. }
  assert (Hlast : last (writes (trace watched)) = Some (dbKey "/inst", killed, None))
    by (vm_compute; reflexivity).
  destruct (Stop_then_GetState Sim.json Sim.World killedOs Sim.clock Sim.content i
              "/inst" "/inst" w 7 killedOs_abs_stable killedOs_clock_laws
              killedOs_store_laws Hfuel Hgrace Habs Hres Hset)
    as (t & t' & _ & Hnow & Hlater).
  split; [exact Hres |]. split; [vm_compute; reflexivity |]. split.
  - exists t, t'.
    exact (proj1 (Hnow (final stopped) eq_refl eq_refl
                    (ex_intro _ _ (conj eq_refl eq_refl)))).
  - split; [exact Hlast |].
    exact (proj1 (Hlater 100%Z None None (final stopped) (dbKey "/inst") killed
                    (final watched) Hlast eq_refl eq_refl
                    (ex_intro _ _ (conj eq_refl eq_refl)))).
Defined.

(** ** Witnesses on the simulated environment *)

Lemma watch_task_outcome_witness :
  let i := withOptions Configurable.NewController in
  let tr := trace (run Sim.os (watchOf i "/inst" 100 (Some 3%Z) None) (Sim.boot 1000)) in
  abs_failures tr = [] /\
  exists st,
    waits tr = [(100%Z, st)] /\
    closes tr = omap id [Some 3%Z; None] /\
    spawns tr = [] /\ launches tr = [] /\ signals tr = [] /\
    (abs_failures tr = [] ->
     match st with
     | Some e => exists t', records tr = [failedWith e t']
     | None => exists stopped t', records tr = [stoppedAt stopped t']
     end).
Proof.
  intros i tr.
  split; [vm_compute; reflexivity |].
  exact (watch_task_outcome Sim.json Sim.World Sim.os i "/inst" 100 (Some 3%Z) None
           (Sim.boot 1000)).
Defined.

Lemma loadRecord_behaviour_witness :
  let i := plain Basic.NewController in
  let o := run Sim.os (loadRecordOf i "inst") (Sim.boot 1000) in
  dbKey "/srv/inst" = dbKey "/srv/inst" /\
  writes (trace o) = [] /\ probes (trace o) = [] /\
  gets (trace o) = [(dbKey "/srv/inst", inr "key not found")] /\
  "/srv/inst" = "/srv/inst".
Proof.
  intros i o.
  destruct (loadRecord_behaviour Sim.json Sim.World Sim.os i "inst" (Sim.boot 1000))
    as (Hw & Hp & _ & Hinj).
  split; [reflexivity |]. split; [exact Hw |]. split; [exact Hp |].
  split; [vm_compute; reflexivity |].
  exact (Hinj "/srv/inst" "/srv/inst" eq_refl).
Defined.
